(** * AbleAway: the resilience layer (retry engine, circuit breakers, batch scraper)

    A shallow embedding of [src/lib/retry.ts], [src/worker.ts] and
    [src/lib/scraper.ts], and the properties of the specification proved
    (or refuted) on it.

    Conventions of the embedding.
    - A JavaScript [number] that holds a count or a clock reading is a [Z].
      The delays of [calculateDelay] are IEEE 754 binary64 values
      ([spec_float], with [SFmul] and [SFadd] at precision 53); [Math.pow],
      whose result the language leaves to the implementation, and
      [Math.random] are services of the platform.
    - [undefined] is [None].
    - Asynchronous code is written in state-passing style over a world [W]
      that stands for everything outside the retry manager (clock, random
      source, network, browser).  [Date.now()], [setTimeout] and
      [Math.random()] are the interface [Runtime] of that world.
    - The calls of [processUrl] that [scrapeUrls] hands to [Promise.all]
      run together: all are started, in order, and then resumed one step
      at a time in an order that an event loop, a parameter of the model,
      chooses.  A step is one awaited call of a worker function: calls are
      interleaved between worker calls, not inside them.
    - The [Map] of circuit breakers is an association list in insertion
      order, because [getStats] enumerates [entries()] in that order. *)

From Stdlib Require Import ZArith SpecFloat.
From Stdlib Require Import List Permutation Ascii String DecimalString Bool Lia.
Import ListNotations.

Local Open Scope string_scope.
Local Open Scope Z_scope.

(** ** JavaScript helpers *)

(** [s.includes(sub)] *)
Fixpoint includes (s sub : string) : bool :=
  if String.prefix sub s then true
  else match s with
       | EmptyString => false
       | String _ s' => includes s' sub
       end.

(** [x === "literal"] for a field that may be absent. *)
Definition field_is (x : option string) (lit : string) : bool :=
  match x with
  | Some v => String.eqb v lit
  | None => false
  end.

(** Truthiness of a field holding a boolean or [undefined]. *)
Definition truthy (b : option bool) : bool :=
  match b with
  | Some true => true
  | _ => false
  end.

(** Completion of a call: a value, or a thrown exception. *)
Inductive Result (E T : Type) : Type :=
| Ok (v : T)
| Throw (e : E).
Arguments Ok {E T} v.
Arguments Throw {E T} e.

(** ** JavaScript numbers that are not whole: IEEE 754 binary64 *)

Definition double : Type := spec_float.

(** [x * y] and [x + y] *)
Definition double_mul (x y : double) : double := SFmul 53 1024 x y.
Definition double_add (x y : double) : double := SFadd 53 1024 x y.

(** The value [m * 2^e], rounded to nearest; a whole literal or a whole
    intermediate result is [double_of_Z]. *)
Definition double_of (m e : Z) : double := binary_normalize 53 1024 m e false.
Definition double_of_Z (n : Z) : double := double_of n 0.

(** The literal [0.5]. *)
Definition half : double := double_of 1 (-1).

(** [Math.min(x, y)]: [NaN] if either is, and [-0] below [+0]. *)
Definition Math_min (x y : double) : double :=
  match SFcompare x y with
  | None => S754_nan
  | Some Lt => x
  | Some Gt => y
  | Some Eq => match x with
               | S754_zero true => x
               | _ => y
               end
  end.

(** [Math.floor(x)]: a value with a fractional part has a negative
    exponent, and its mantissa shifted right is the floor ([Z.shiftr]
    rounds down on negatives too). *)
Definition Math_floor (x : double) : double :=
  match x with
  | S754_finite s m e =>
      if e <? 0 then double_of_Z (Z.shiftr (cond_Zopp s (Zpos m)) (- e))
      else x
  | _ => x
  end.

(** ** retry.ts: data *)

Inductive ErrorType : Type :=
| NETWORK_ERROR
| TIMEOUT_ERROR
| PARSING_ERROR
| AI_EXTRACTION_ERROR
| BROWSER_ERROR
| UNKNOWN_ERROR.

(** The string value of the enum member. *)
Definition ErrorType_value (t : ErrorType) : string :=
  match t with
  | NETWORK_ERROR => "network_error"
  | TIMEOUT_ERROR => "timeout_error"
  | PARSING_ERROR => "parsing_error"
  | AI_EXTRACTION_ERROR => "ai_extraction_error"
  | BROWSER_ERROR => "browser_error"
  | UNKNOWN_ERROR => "unknown_error"
  end.

Record RetryConfig : Type := {
  maxAttempts : Z;
  baseDelay : double;          (* milliseconds *)
  maxDelay : double;           (* milliseconds *)
  backoffMultiplier : double;
  jitter : bool
}.

(** A caught value ([catch (error)], typed [any]): the fields that the
    program reads from it.  [err_status] is read by worker.ts,
    [err_errorType] and [err_retryable] are the fields of class
    [RetryableError], [err_isError] is [error instanceof Error]. *)
#[warnings="-register-all"]
Inductive JsError : Type := mkJsError {
  err_name : option string;
  err_code : option string;
  err_status : option Z;
  err_message : option string;
  err_errorType : option ErrorType;
  err_retryable : option bool;
  err_originalError : option JsError;
  err_isError : bool
}.

(** [new RetryableError(errorType, message, originalError, retryable)];
    the default [retryable = true] is written out by the callers. *)
Definition RetryableError (errorType : ErrorType) (message : string)
    (originalError : option JsError) (retryable : bool) : JsError :=
  {| err_name := Some "RetryableError";
     err_code := None;
     err_status := None;
     err_message := Some message;
     err_errorType := Some errorType;
     err_retryable := Some retryable;
     err_originalError := originalError;
     err_isError := true |}.

(** [timestamp] is the clock reading that [new Date().toISOString()]
    prints. *)
Module DetailedError.
Record t : Type := {
  type : option ErrorType;
  message : string;
  originalError : JsError;
  attempt : Z;
  url : string;
  timestamp : Z;
  retryable : option bool
}.
End DetailedError.

(** What [executeWithRetry] throws: a [DetailedError] object, or an
    instance of [RetryableError]. *)
Inductive Thrown : Type :=
| ThrowDetailed (d : DetailedError.t)
| ThrowError (e : JsError).

Definition Thrown_retryable (t : Thrown) : option bool :=
  match t with
  | ThrowDetailed d => DetailedError.retryable d
  | ThrowError e => err_retryable e
  end.

(** ** retry.ts: RetryManager.categorizeError *)

(** [error?.message || "Unknown error"] *)
Definition message_or_default (error : JsError) : string :=
  match err_message error with
  | Some m => if String.eqb m "" then "Unknown error" else m
  | None => "Unknown error"
  end.

Definition categorizeError (error : JsError) (url : string) (attempt : Z)
    (context : string) (now : Z) : DetailedError.t :=
  let message := message_or_default error in
  let '(errorType, retryable) :=
    if field_is (err_code error) "ENOTFOUND"
       || field_is (err_code error) "ECONNREFUSED" then
      (Some NETWORK_ERROR, Some true)
    else if field_is (err_code error) "ETIMEDOUT"
            || includes message "timeout" then
      (Some TIMEOUT_ERROR, Some true)
    else if field_is (err_name error) "TimeoutError"
            || includes message "Navigation timeout" then
      (Some BROWSER_ERROR, Some true)
    else if includes message "JSON" || includes message "parse" then
      (Some PARSING_ERROR, Some true)
    else if includes context "extract" || includes message "AI"
            || includes message "OpenAI" then
      (Some AI_EXTRACTION_ERROR, Some true)
    else if field_is (err_name error) "RetryableError" then
      (err_errorType error, err_retryable error)
    else
      (Some UNKNOWN_ERROR, Some true) in
  (* Some errors shouldn't be retried *)
  let retryable :=
    if includes message "401" || includes message "403"
       || includes message "404"
    then Some false else retryable in
  {| DetailedError.type := errorType;
     DetailedError.message := message;
     DetailedError.originalError := error;
     DetailedError.attempt := attempt;
     DetailedError.url := url;
     DetailedError.timestamp := now;
     DetailedError.retryable := retryable |}.

(** ** retry.ts: class CircuitBreaker *)

Record CircuitBreaker : Type := {
  failures : Z;
  successes : Z;
  lastFailureTime : Z
}.

Definition newCircuitBreaker : CircuitBreaker :=
  {| failures := 0; successes := 0; lastFailureTime := 0 |}.

Definition failureThreshold : Z := 5.
Definition resetTimeout : Z := 60000. (* 1 minute *)

Definition recordFailure (now : Z) (cb : CircuitBreaker) : CircuitBreaker :=
  {| failures := failures cb + 1;
     successes := successes cb;
     lastFailureTime := now |}.

Definition recordSuccess (cb : CircuitBreaker) : CircuitBreaker :=
  {| failures := 0; (* Reset failure count on success *)
     successes := successes cb + 1;
     lastFailureTime := lastFailureTime cb |}.

(** [isOpen()] returns its verdict and the breaker as it leaves it. *)
Definition isOpen (now : Z) (cb : CircuitBreaker) : bool * CircuitBreaker :=
  if failures cb <? failureThreshold then (false, cb)
  else if now - lastFailureTime cb >? resetTimeout then
    (* Auto-reset after timeout *)
    (false, {| failures := 0;
               successes := successes cb;
               lastFailureTime := lastFailureTime cb |})
  else (true, cb).

Definition getFailureCount (cb : CircuitBreaker) : Z := failures cb.
Definition getSuccessCount (cb : CircuitBreaker) : Z := successes cb.

(** ** The world outside the retry manager *)

(** The platform services the code calls: [Date.now()], [setTimeout]
    (awaited through [sleep]), [Math.random()], [Math.pow] (an
    approximation the implementation chooses), and the hostname of
    [new URL(url)] ([None] when the constructor throws). *)
Class Runtime (W : Type) : Type := {
  dateNow : W -> Z;
  setTimeout : double -> W -> W;
  mathRandom : W -> double * W;
  Math_pow : double -> double -> double;
  URL_hostname : string -> option string;
  (** Without a base, the URL parser fails on an input that has no scheme,
      so on every input without a colon. *)
  URL_needs_scheme :
    forall s, includes s ":" = false -> URL_hostname s = None
}.

(** ** A JavaScript [Map] with string keys, in insertion order *)

Section JsMap.
Context {V : Type}.

Fixpoint Map_get (k : string) (m : list (string * V)) : option V :=
  match m with
  | [] => None
  | (k', v) :: m' => if String.eqb k' k then Some v else Map_get k m'
  end.

Definition Map_has (k : string) (m : list (string * V)) : bool :=
  match Map_get k m with
  | Some _ => true
  | None => false
  end.

(** [set] keeps the position of a key that is present and appends a new
    one. *)
Fixpoint Map_set (k : string) (v : V) (m : list (string * V))
  : list (string * V) :=
  match m with
  | [] => [(k, v)]
  | (k', v') :: m' =>
      if String.eqb k' k then (k', v) :: m' else (k', v') :: Map_set k v m'
  end.
End JsMap.

(** ** retry.ts: class RetryManager *)

Definition Breakers : Type := list (string * CircuitBreaker).

(** The manager's [circuitBreakers] map together with the world it runs
    in.  [invocations] is a ghost counter of the calls of [operation]. *)
Record State (W : Type) : Type := mkState {
  world : W;
  circuitBreakers : Breakers;
  invocations : nat
}.
Arguments mkState {W} _ _ _.
Arguments world {W} _.
Arguments circuitBreakers {W} _.
Arguments invocations {W} _.

(** The constructor's defaults, [new RetryManager()]. *)
Definition defaultConfig : RetryConfig :=
  {| maxAttempts := 3;
     baseDelay := double_of_Z 1000;
     maxDelay := double_of_Z 30000;
     backoffMultiplier := double_of_Z 2;
     jitter := true |}.

(** A method called on the breaker object stored under [domain]. *)
Definition on_breaker (domain : string)
    (f : CircuitBreaker -> CircuitBreaker) (m : Breakers) : Breakers :=
  match Map_get domain m with
  | Some cb => Map_set domain (f cb) m
  | None => m
  end.

(** [getCircuitBreaker(domain)]: the breaker stored under [domain], created
    first if the map has none, and the map as the call leaves it. *)
Definition getCircuitBreaker (domain : string) (m : Breakers)
  : CircuitBreaker * Breakers :=
  match Map_get domain m with
  | Some cb => (cb, m)
  | None => (newCircuitBreaker, Map_set domain newCircuitBreaker m)
  end.

(** One entry of [getStats().domains]. *)
Record DomainStats : Type := {
  st_domain : string;
  st_failures : Z;
  st_successes : Z;
  st_isOpen : bool
}.

Record Stats : Type := {
  domains : list DomainStats;
  totalDomains : nat;
  openCircuits : nat
}.

(** The values of [attempt] for which the loop condition
    [attempt <= maxAttempts] holds, from [attempt = 1]. *)
Definition attemptRange (maxAttempts : Z) : list Z :=
  map Z.of_nat (seq 1 (Z.to_nat maxAttempts)).

Section RetryManager.
Context {W : Type} `{Runtime W}.
Variable config : RetryConfig.

Definition sleep (ms : double) (w : W) : W := setTimeout ms w.

Definition extractDomain (url : string) : string :=
  match URL_hostname url with
  | Some hostname => hostname
  | None => "unknown"
  end.

(** The delay of [calculateDelay] before the jitter step. *)
Definition computedDelay (attempt : Z) : double :=
  let delay :=
    double_mul (baseDelay config)
      (Math_pow (backoffMultiplier config) (double_of_Z (attempt - 1))) in
  Math_min delay (maxDelay config).

Definition calculateDelay (attempt : Z) (w : W) : double * W :=
  let delay := computedDelay attempt in
  (* Add jitter to prevent thundering herd *)
  if jitter config then
    let '(random, w') := mathRandom w in
    (Math_floor (double_mul delay (double_add half (double_mul random half))),
     w')
  else (Math_floor delay, w).

(** The statement after the loop: [throw lastError || new RetryableError(...)]. *)
Definition allAttemptsFailed (lastError : option DetailedError.t) : Thrown :=
  match lastError with
  | Some d => ThrowDetailed d
  | None =>
      ThrowError
        (RetryableError UNKNOWN_ERROR "All retry attempts failed" None false)
  end.

Section Execute.
Context {T : Type}.
Variable operation : W -> Result JsError T * W.
Variables (url context domain : string).

(** The [for] loop of [executeWithRetry], over the remaining values of
    [attempt]. *)
Fixpoint attemptLoop (attempts : list Z) (lastError : option DetailedError.t)
    (s : State W) : Result Thrown T * State W :=
  match attempts with
  | [] => (Throw (allAttemptsFailed lastError), s)
  | attempt :: rest =>
      let '(r, w) := operation (world s) in
      let n := S (invocations s) in
      match r with
      | Ok result =>
          (* Success! Reset circuit breaker *)
          (Ok result,
           mkState w (on_breaker domain recordSuccess (circuitBreakers s)) n)
      | Throw error =>
          let detailedError :=
            categorizeError error url attempt context (dateNow w) in
          (* Record failure in circuit breaker *)
          let m :=
            on_breaker domain (recordFailure (dateNow w))
              (circuitBreakers s) in
          (* Don't retry if error is not retryable or we've hit max attempts *)
          if negb (truthy (DetailedError.retryable detailedError))
             || (attempt =? maxAttempts config) then
            (Throw (allAttemptsFailed (Some detailedError)), mkState w m n)
          else
            let '(delay, w1) := calculateDelay attempt w in
            attemptLoop rest (Some detailedError)
              (mkState (sleep delay w1) m n)
      end
  end.
End Execute.

Definition executeWithRetry {T : Type}
    (operation : W -> Result JsError T * W) (url context : string)
    (s : State W) : Result Thrown T * State W :=
  let domain := extractDomain url in
  let '(circuitBreaker, m) := getCircuitBreaker domain (circuitBreakers s) in
  let '(open, cb) := isOpen (dateNow (world s)) circuitBreaker in
  let s1 := mkState (world s) (Map_set domain cb m) (invocations s) in
  if open then
    (Throw
       (ThrowError
          (RetryableError NETWORK_ERROR
             ("Circuit breaker is open for domain " ++ domain)
             None false)), (* Don't retry when circuit is open *)
     s1)
  else
    attemptLoop operation url context domain
      (attemptRange (maxAttempts config)) None s1.

(** [getStats()]: the statistics, and the map as the calls of
    [cb.isOpen()] leave it. *)
Definition getStats (s : State W) : Stats * State W :=
  let now := dateNow (world s) in
  let stats :=
    map (fun '(domain, cb) =>
           {| st_domain := domain;
              st_failures := getFailureCount cb;
              st_successes := getSuccessCount cb;
              st_isOpen := fst (isOpen now cb) |})
        (circuitBreakers s) in
  let m :=
    map (fun '(domain, cb) => (domain, snd (isOpen now cb)))
        (circuitBreakers s) in
  ({| domains := stats;
      totalDomains := List.length stats;
      openCircuits := List.length (filter st_isOpen stats) |},
   mkState (world s) m (invocations s)).

(** The registry-level query of the specification, [isOpen(key)]: the
    breaker of the key's domain is created if absent and asked. *)
Definition registry_isOpen (key : string) (now : Z) (m : Breakers)
  : bool * Breakers :=
  let domain := extractDomain key in
  let '(cb, m) := getCircuitBreaker domain m in
  let '(open, cb') := isOpen now cb in
  (open, Map_set domain cb' m).
End RetryManager.

(** ** types.ts *)

Record AccessibilityFeatures : Type := {
  wheelchairAccessible : bool;
  accessibleBathroom : bool;
  elevator : bool;
  brailleSignage : bool;
  publicTransitNearby : bool
}.

(** The optional [id], [rawHtml] and [extractionConfidence] are never set
    by the code below. *)
Module HotelRecord.
Record t : Type := {
  url : string;
  scrapedAt : Z;
  accessibilityFeatures : AccessibilityFeatures
}.
End HotelRecord.

Module ScrapeResult.
Record t : Type := {
  url : string;
  success : bool;
  data : option AccessibilityFeatures;
  error : option string;
  timestamp : Z
}.
End ScrapeResult.

(** ** worker.ts *)

(** The configuration of the module's [retryManager]. *)
Definition retryManagerConfig : RetryConfig :=
  {| maxAttempts := 3;
     baseDelay := double_of_Z 1000;
     maxDelay := double_of_Z 15000;
     backoffMultiplier := double_of_Z 2;
     jitter := true |}.

(** [`${error.message}`] *)
Definition template_message (error : JsError) : string :=
  match err_message error with
  | Some m => m
  | None => "undefined"
  end.

Section Worker.
Context {W : Type} `{Runtime W}.

(** The asynchronous function that [scrapeUrl] hands to the retry manager
    (browser session, page load, content check), and the [try] block of
    the one [extractFeatures] hands to it (model request, [JSON.parse],
    field validation): external collaborators. *)
Variable pageOperation : string -> W -> Result JsError string * W.
Variable modelRequest :
  string -> W -> Result JsError (option AccessibilityFeatures) * W.
(** The [TypeError] the engine raises for [undefined.includes]. *)
Variable undefinedTypeError : JsError.

Definition scrapeUrl (url : string) (s : State W)
  : Result Thrown string * State W :=
  executeWithRetry retryManagerConfig (pageOperation url) url "scraping" s.

(** The [catch] block of the operation of [extractFeatures]: the value it
    throws for a caught [error]. *)
Definition extractFeatures_catch (error : JsError) : JsError :=
  if field_is (err_name error) "SyntaxError" then
    RetryableError PARSING_ERROR
      ("Failed to parse JSON from AI response: " ++ template_message error)
      (Some error) true
  else
    match err_message error with
    | None => undefinedTypeError
    | Some m =>
        if includes m "JSON" then
          RetryableError PARSING_ERROR
            ("Failed to parse JSON from AI response: " ++ m)
            (Some error) true
        else
          match err_status error with
          | None => error (* Re-throw unknown errors *)
          | Some status =>
              if status =? 429 then
                RetryableError AI_EXTRACTION_ERROR "OpenAI rate limit hit"
                  (Some error) true
              else if status >=? 500 then
                RetryableError AI_EXTRACTION_ERROR
                  ("OpenAI server error: " ++ m) (Some error) true
              else if (status >=? 400) && (status <? 500) then
                (* Don't retry client errors (400-499 except 429) *)
                RetryableError AI_EXTRACTION_ERROR
                  ("OpenAI client error: " ++ m) (Some error)
                  false (* Don't retry *)
              else error (* Re-throw unknown errors *)
          end
    end.

Definition extractFeatures_operation (text : string) (w : W)
  : Result JsError (option AccessibilityFeatures) * W :=
  match modelRequest text w with
  | (Ok parsed, w') => (Ok parsed, w')
  | (Throw error, w') => (Throw (extractFeatures_catch error), w')
  end.

Definition extractFeatures (text : string) (s : State W)
  : Result Thrown (option AccessibilityFeatures) * State W :=
  executeWithRetry retryManagerConfig (extractFeatures_operation text)
    "AI-extraction" "feature extraction" s.

Definition getRetryStats (s : State W) : Stats * State W := getStats s.
End Worker.

(** ** scraper.ts: class ParallelScraper *)

(** [l.slice(start, end)] for integer arguments. *)
Definition slice {A : Type} (start end_ : Z) (l : list A) : list A :=
  let len := Z.of_nat (List.length l) in
  let k := if start <? 0 then Z.max (len + start) 0 else Z.min start len in
  let final := if end_ <? 0 then Z.max (len + end_) 0 else Z.min end_ len in
  firstn (Z.to_nat (final - k)) (skipn (Z.to_nat k) l).

(** [`${n}`] for an integer. *)
Definition string_of_Z (n : Z) : string :=
  DecimalString.NilZero.string_of_int (Z.to_int n).

(** Ghost events of a run, in the order they happen: a call of
    [processUrl] settles, [insertHotel] returns or throws, the pause
    between two batches. *)
Inductive Event : Type :=
| Settled (url : string) (success : bool)
| Saved (url : string)
| SaveFailed (url : string)
| Paused.

(** The event of a call of [processUrl] that settles with [r]. *)
Definition settled_event (r : ScrapeResult.t) : Event :=
  Settled (ScrapeResult.url r) (ScrapeResult.success r).

(** A call of [processUrl] between two of its steps: suspended at
    [await scrapeUrl(url)], suspended at [await extractFeatures(html)], or
    settled with its result. *)
Inductive Task : Type :=
| Scraping (url : string) (timestamp : Z)
| Extracting (url : string) (timestamp : Z) (html : string)
| SettledWith (result : ScrapeResult.t).

Definition is_settled (t : Task) : bool :=
  match t with
  | SettledWith _ => true
  | _ => false
  end.

(** The results of the calls that have settled, in the order of the
    calls. *)
Fixpoint settled_results (tasks : list Task) : list ScrapeResult.t :=
  match tasks with
  | [] => []
  | SettledWith r :: rest => r :: settled_results rest
  | _ :: rest => settled_results rest
  end.

(** What the log gains when a step leaves a call as [t]. *)
Definition settle_log (t : Task) : list Event :=
  match t with
  | SettledWith r => [settled_event r]
  | _ => []
  end.

(** The first call that has not settled, with the calls before and after
    it. *)
Fixpoint first_pending (tasks : list Task)
  : option (list Task * Task * list Task) :=
  match tasks with
  | [] => None
  | t :: rest =>
      if is_settled t then
        match first_pending rest with
        | Some (before, t', after) => Some (t :: before, t', after)
        | None => None
        end
      else Some ([], t, rest)
  end.

(** The call at index [i], with the calls before and after it. *)
Fixpoint split_at (i : nat) (tasks : list Task)
  : option (list Task * Task * list Task) :=
  match tasks, i with
  | [], _ => None
  | t :: rest, O => Some ([], t, rest)
  | t :: rest, S i' =>
      match split_at i' rest with
      | Some (before, t', after) => Some (t :: before, t', after)
      | None => None
      end
  end.

(** The call that makes the next step: the one the event loop chooses,
    [choice] counted around the window, if it has not settled, and the
    first that has not settled otherwise.  [None] once all have settled. *)
Definition pick (choice : nat) (tasks : list Task)
  : option (list Task * Task * list Task) :=
  match split_at (choice mod List.length tasks) tasks with
  | Some (before, t, after) =>
      if is_settled t then first_pending tasks else Some (before, t, after)
  | None => first_pending tasks
  end.

Section ParallelScraper.
Context {W : Type} `{Runtime W}.

(** [this.maxConcurrent] *)
Variable maxConcurrent : Z.
(** The event loop: in the window that starts at index [i] of the new
    urls, the suspended call that is resumed at step [k] is
    [schedule i k], counted around the window. *)
Variable schedule : Z -> nat -> nat.
(** Imported from worker.ts. *)
Variable scrapeUrl : string -> W -> Result Thrown string * W.
Variable extractFeatures :
  string -> W -> Result Thrown (option AccessibilityFeatures) * W.
Variable getRetryStats : W -> Stats * W.
(** [this.storage] *)
Variable urlExists : string -> W -> bool.
Variable insertHotel : HotelRecord.t -> W -> Result JsError Z * W.

(** The [catch (err)] block of [processUrl]: the value of [errorMessage]. *)
Definition processUrl_errorMessage (err : Thrown) : option string :=
  match err with
  | ThrowDetailed d =>
      (* Handle detailed errors from our retry system *)
      match DetailedError.type d with
      | Some t =>
          if negb (String.eqb (DetailedError.message d) "") then
            let errorMessage :=
              ErrorType_value t ++ ": " ++ DetailedError.message d in
            if negb (DetailedError.attempt d =? 0) then
              Some (errorMessage ++ " (failed after "
                    ++ string_of_Z (DetailedError.attempt d) ++ " attempts)")
            else Some errorMessage
          else Some "Unknown error"
      | None => Some "Unknown error"
      end
  | ThrowError e =>
      if err_isError e then err_message e else Some "Unknown error"
  end.

Definition failed (url : string) (error : option string) (timestamp : Z)
  : ScrapeResult.t :=
  {| ScrapeResult.url := url;
     ScrapeResult.success := false;
     ScrapeResult.data := None;
     ScrapeResult.error := error;
     ScrapeResult.timestamp := timestamp |}.

(** [processUrl(url, workerId)]; [workerId] only appears in log lines. *)
Definition processUrl (url : string) (w : W) : ScrapeResult.t * W :=
  let timestamp := dateNow w in
  match scrapeUrl url w with
  | (Throw err, w1) => (failed url (processUrl_errorMessage err) timestamp, w1)
  | (Ok html, w1) =>
      match extractFeatures html w1 with
      | (Throw err, w2) =>
          (failed url (processUrl_errorMessage err) timestamp, w2)
      | (Ok (Some features), w2) =>
          ({| ScrapeResult.url := url;
              ScrapeResult.success := true;
              ScrapeResult.data := Some features;
              ScrapeResult.error := None;
              ScrapeResult.timestamp := timestamp |}, w2)
      | (Ok None, w2) =>
          (failed url (Some "Failed to extract accessibility features")
             timestamp, w2)
      end
  end.

(** [processUrl(url, workerId)] from its call to its first [await]: the
    timestamp is read. *)
Definition startTask (w : W) (url : string) : Task :=
  Scraping url (dateNow w).

(** A suspended call is resumed: the function it awaits takes effect on the
    world, and the call goes on to its next [await] or to its [return].
    Two steps of a call on its own are [processUrl]. *)
Definition stepTask (t : Task) (w : W) : Task * W :=
  match t with
  | Scraping url timestamp =>
      match scrapeUrl url w with
      | (Throw err, w1) =>
          (SettledWith (failed url (processUrl_errorMessage err) timestamp),
           w1)
      | (Ok html, w1) => (Extracting url timestamp html, w1)
      end
  | Extracting url timestamp html =>
      match extractFeatures html w with
      | (Throw err, w2) =>
          (SettledWith (failed url (processUrl_errorMessage err) timestamp),
           w2)
      | (Ok (Some features), w2) =>
          (SettledWith
             {| ScrapeResult.url := url;
                ScrapeResult.success := true;
                ScrapeResult.data := Some features;
                ScrapeResult.error := None;
                ScrapeResult.timestamp := timestamp |}, w2)
      | (Ok None, w2) =>
          (SettledWith
             (failed url (Some "Failed to extract accessibility features")
                timestamp), w2)
      end
  | SettledWith _ => (t, w)
  end.

(** The calls of a window run together: at each step the event loop
    resumes one of the calls that have not settled, until all have. *)
Fixpoint runTasks (steps : nat) (next : nat -> nat) (k : nat)
    (tasks : list Task) (w : W) (log : list Event)
  : list Task * W * list Event :=
  match steps with
  | O => (tasks, w, log)
  | S steps' =>
      match pick (next k) tasks with
      | None => (tasks, w, log)
      | Some (before, t, after) =>
          let '(t', w') := stepTask t w in
          runTasks steps' next (S k) (before ++ t' :: after)%list w'
            (log ++ settle_log t')
      end
  end.

(** [await Promise.all(batch.map(url => this.processUrl(url, ...)))] in
    the window that starts at index [i]: every call is started, in the
    order of [batch], before any of them is resumed; the results are in
    the order of [batch], whatever the order in which the calls settle.
    Each call needs two steps, so twice the size of the window is enough
    for all of them to settle. *)
Definition promiseAll (i : Z) (batch : list string) (w : W) (log : list Event)
  : list ScrapeResult.t * W * list Event :=
  let batchPromises := map (startTask w) batch in
  let '(tasks, w', log') :=
    runTasks (2 * List.length batch) (schedule i) 0 batchPromises w log in
  (settled_results tasks, w', log').

(** [for (const result of batchResults) { if (...) { try {...} catch {...} } }] *)
Fixpoint saveResults (batchResults : list ScrapeResult.t) (w : W)
    (log : list Event) : W * list Event :=
  match batchResults with
  | [] => (w, log)
  | result :: rest =>
      match ScrapeResult.success result, ScrapeResult.data result with
      | true, Some data =>
          let record :=
            {| HotelRecord.url := ScrapeResult.url result;
               HotelRecord.scrapedAt := ScrapeResult.timestamp result;
               HotelRecord.accessibilityFeatures := data |} in
          match insertHotel record w with
          | (Ok id, w') =>
              saveResults rest w' (log ++ [Saved (ScrapeResult.url result)])
          | (Throw err, w') =>
              saveResults rest w'
                (log ++ [SaveFailed (ScrapeResult.url result)])
          end
      | _, _ => saveResults rest w log
      end
  end.

(** The batch loop [for (let i = 0; i < newUrls.length; i += maxConcurrent)],
    from the current [i]; [None] when the fuel runs out before the loop
    condition fails. *)
Fixpoint batchLoop (fuel : nat) (newUrls : list string) (i : Z)
    (results : list ScrapeResult.t) (w : W) (log : list Event)
  : option (list ScrapeResult.t * W * list Event) :=
  match fuel with
  | O => None
  | S fuel' =>
      if i <? Z.of_nat (List.length newUrls) then
        let batch := slice i (i + maxConcurrent) newUrls in
        let '(batchResults, w1, log1) := promiseAll i batch w log in
        let results := (results ++ batchResults)%list in
        (* Save successful results immediately *)
        let '(w2, log2) := saveResults batchResults w1 log1 in
        (* Brief pause between batches to be nice to servers *)
        if i + maxConcurrent <? Z.of_nat (List.length newUrls) then
          batchLoop fuel' newUrls (i + maxConcurrent) results
            (setTimeout (double_of_Z 1000) w2) (log2 ++ [Paused])
        else
          batchLoop fuel' newUrls (i + maxConcurrent) results w2 log2
      else Some (results, w, log)
  end.

Definition scrapeUrls (fuel : nat) (urls : list string) (w : W)
  : option (list ScrapeResult.t * W * list Event) :=
  (* Filter out URLs already in database *)
  let newUrls := filter (fun url => negb (urlExists url w)) urls in
  if Nat.eqb (List.length newUrls) 0 then Some ([], w, [])
  else
    match batchLoop fuel newUrls 0 [] w [] with
    | None => None
    | Some (results, w1, log) =>
        (* Show retry statistics *)
        let '(retryStats, w2) := getRetryStats w1 in
        Some (results, w2, log)
    end.
End ParallelScraper.

(** ** A concrete world, for examples

    A clock and the value the next calls of [Math.random()] return.  Its
    timers advance the clock by the whole milliseconds of the delay, its
    [Math.pow] multiplies the base by itself, and its URL parser is a small
    stand-in that knows [scheme://host/path]. *)

Record ExampleWorld : Type := {
  clock : Z;
  random : double
}.

(** The whole part of a finite number, [0] for the others. *)
Definition whole (x : double) : Z :=
  match x with
  | S754_finite s m e =>
      cond_Zopp s
        (if e <? 0 then Z.shiftr (Zpos m) (- e) else Z.shiftl (Zpos m) e)
  | _ => 0
  end.

Definition example_pow (x y : double) : double :=
  Z.iter (whole y) (double_mul x) (double_of_Z 1).

(** The text after the first ["://"], if any. *)
Fixpoint after_scheme (s : string) : option string :=
  if String.prefix "://" s then Some (String.substring 3 (String.length s - 3) s)
  else match s with
       | EmptyString => None
       | String _ s' => after_scheme s'
       end.

(** The text before the first ["/"]. *)
Fixpoint before_slash (s : string) : string :=
  match s with
  | EmptyString => EmptyString
  | String c s' =>
      if Ascii.eqb c "/"%char then EmptyString else String c (before_slash s')
  end.

Definition example_hostname (s : string) : option string :=
  match after_scheme s with
  | Some rest => Some (before_slash rest)
  | None => None
  end.

#[export, refine] Instance exampleRuntime : Runtime ExampleWorld := {
  dateNow w := clock w;
  setTimeout ms w :=
    {| clock := clock w + Z.max 0 (whole ms); random := random w |};
  mathRandom w := (random w, w);
  Math_pow := example_pow;
  URL_hostname := example_hostname
}.
Proof.
  intros s Hs. unfold example_hostname.
  enough (Hnone : after_scheme s = None) by now rewrite Hnone.
  induction s as [|c s IH]; [reflexivity|].
  revert Hs. cbn [includes after_scheme String.prefix].
  destruct (ascii_dec ":" c); intros Hs.
  - destruct s; discriminate Hs.
  - exact (IH Hs).
Defined.

(** Values of the examples. *)

Definition example_world (now : Z) : ExampleWorld :=
  {| clock := now; random := double_of 1 (-10) |}.

Definition example_state (now : Z) (m : Breakers) : State ExampleWorld :=
  mkState (example_world now) m 0.

(** A breaker that took five failures, the last one at time 0. *)
Definition tripped : CircuitBreaker :=
  {| failures := 5; successes := 0; lastFailureTime := 0 |}.

Definition example_breakers : Breakers := [("a.example", tripped)].

(** The tripped breaker after the auto-reset. *)
Definition reset_breaker : CircuitBreaker :=
  {| failures := 0; successes := 0; lastFailureTime := 0 |}.

(** Two failures on record under ["unknown"]. *)
Definition unknown_breakers : Breakers :=
  [("unknown", {| failures := 2; successes := 0; lastFailureTime := 0 |})].

(** A refused connection, as the platform reports it. *)
Definition connection_refused : JsError :=
  {| err_name := Some "Error";
     err_code := Some "ECONNREFUSED";
     err_status := None;
     err_message := Some "connect ECONNREFUSED 10.0.0.1:443";
     err_errorType := None;
     err_retryable := None;
     err_originalError := None;
     err_isError := true |}.

(** An HTTP error of a client library: a status code and a message. *)
Definition http_error (status : Z) (message : string) : JsError :=
  {| err_name := Some "Error";
     err_code := None;
     err_status := Some status;
     err_message := Some message;
     err_errorType := None;
     err_retryable := None;
     err_originalError := None;
     err_isError := true |}.

(** An operation that throws [error] at each call, ten milliseconds after
    it was called. *)
Definition always_throws {T : Type} (error : JsError) (w : ExampleWorld)
  : Result JsError T * ExampleWorld :=
  (Throw error, setTimeout (double_of_Z 10) w).

(** The [TypeError] of a property read on [undefined]. *)
Definition undefined_type_error : JsError :=
  {| err_name := Some "TypeError";
     err_code := None;
     err_status := None;
     err_message := Some "undefined is not an object";
     err_errorType := None;
     err_retryable := None;
     err_originalError := None;
     err_isError := true |}.

(** A model service that answers every request with a client error. *)
Definition bad_request (text : string) (w : ExampleWorld)
  : Result JsError (option AccessibilityFeatures) * ExampleWorld :=
  (Throw (http_error 400 "Bad request"), setTimeout (double_of_Z 10) w).

(** Numbers and configurations for the examples of [calculateDelay]: the
    binary64 number nearest to 1.2, the largest one below 1, a base delay
    that grows slowly, and a base delay that is odd. *)
Definition one_point_two : double := double_of 5404319552844595 (-52).
Definition below_one : double := double_of (2 ^ 53 - 1) (-53).

Definition slow_config : RetryConfig :=
  {| maxAttempts := 3;
     baseDelay := double_of_Z 100;
     maxDelay := double_of_Z 30000;
     backoffMultiplier := one_point_two;
     jitter := false |}.

Definition odd_config : RetryConfig :=
  {| maxAttempts := 3;
     baseDelay := double_of_Z 1001;
     maxDelay := double_of_Z 30000;
     backoffMultiplier := double_of_Z 2;
     jitter := true |}.

(** A storage and two workers for the examples: the url
    [https://done.example/] is already stored, every page loads, every
    extraction finds the same features, every save returns. *)
Definition example_features : AccessibilityFeatures :=
  {| wheelchairAccessible := true;
     accessibleBathroom := true;
     elevator := false;
     brailleSignage := false;
     publicTransitNearby := true |}.

Definition example_urlExists (url : string) (w : ExampleWorld) : bool :=
  String.eqb url "https://done.example/".

Definition example_scrapeUrl (url : string) (w : ExampleWorld)
  : Result Thrown string * ExampleWorld :=
  (Ok "<html>", setTimeout (double_of_Z 10) w).

Definition example_extractFeatures (text : string) (w : ExampleWorld)
  : Result Thrown (option AccessibilityFeatures) * ExampleWorld :=
  (Ok (Some example_features), setTimeout (double_of_Z 10) w).

Definition example_insertHotel (record : HotelRecord.t) (w : ExampleWorld)
  : Result JsError Z * ExampleWorld :=
  (Ok 1, w).

Definition example_getRetryStats (w : ExampleWorld) : Stats * ExampleWorld :=
  ({| domains := []; totalDomains := 0; openCircuits := 0 |}, w).

(** ** Vocabulary of the properties *)

(** An operation that fails at every invocation with an error that the
    classifier finds retryable. *)
Definition fails_retryable {W T : Type}
    (operation : W -> Result JsError T * W) (url context : string) : Prop :=
  forall w, exists error w',
    operation w = (Throw error, w')
    /\ forall attempt now,
         DetailedError.retryable
           (categorizeError error url attempt context now) = Some true.

(** The world in which the next attempt starts, once attempt [attempt]
    has failed and left the world [w]: the delay is computed and slept. *)
Definition after_backoff {W : Type} `{Runtime W} (config : RetryConfig)
    (attempt : Z) (w : W) : W :=
  let '(delay, w1) := calculateDelay config attempt w in
  sleep delay w1.

(** What a query does to the breaker it asks: the success count and the
    time of the last failure stay; the failure count is set to 0 when it
    has reached the threshold and more than [resetTimeout] has passed since
    the last failure, and stays in every other case. *)
Definition auto_reset (now : Z) (cb cb' : CircuitBreaker) : Prop :=
  successes cb' = successes cb
  /\ lastFailureTime cb' = lastFailureTime cb
  /\ (failureThreshold <= failures cb ->
      resetTimeout < now - lastFailureTime cb -> failures cb' = 0)
  /\ (failures cb < failureThreshold
      \/ now - lastFailureTime cb <= resetTimeout ->
      failures cb' = failures cb).



(** A successful result carries its data. *)
Definition has_data_when_successful (r : ScrapeResult.t) : Prop :=
  ScrapeResult.success r = true -> exists features, ScrapeResult.data r = Some features.



(** The url of a call, and the steps it still has to make. *)
Definition task_url (t : Task) : string :=
  match t with
  | Scraping url _ | Extracting url _ _ => url
  | SettledWith r => ScrapeResult.url r
  end.

Definition remaining (t : Task) : nat :=
  match t with
  | Scraping _ _ => 2
  | Extracting _ _ _ => 1
  | SettledWith _ => 0
  end.

Definition pending_steps (tasks : list Task) : nat :=
  list_sum (map remaining tasks).

(** A property of the results, on the calls that have settled. *)
Definition settled_with (P : ScrapeResult.t -> Prop) (t : Task) : Prop :=
  match t with
  | SettledWith r => P r
  | _ => True
  end.

(** Two event loops for the examples: the calls take turns; the second
    call of the window goes first. *)
Definition taking_turns (i : Z) (k : nat) : nat := k.

(** ** The rest of the modelled code, and the vocabulary of its properties *)

(** The retry manager seen from scraper.ts: a world of its own, whose clock
    and timers are those of the world it runs in. *)
Definition stateRuntime {W : Type} `{Runtime W} : Runtime (State W) :=
  {| dateNow := fun s => dateNow (world s);
     setTimeout := fun ms s =>
       mkState (setTimeout ms (world s)) (circuitBreakers s) (invocations s);
     mathRandom := fun s =>
       let '(r, w) := mathRandom (world s) in
       (r, mkState w (circuitBreakers s) (invocations s));
     Math_pow := Math_pow (W:=W);
     URL_hostname := URL_hostname (W:=W);
     URL_needs_scheme := URL_needs_scheme (W:=W) |}.

(** What happens to one breaker over time: calls of [recordSuccess] and of
    [recordFailure] (at the time [Date.now()] returned). *)
Inductive BreakerEvent : Type :=
| Succeeded
| Failed (now : Z).

Definition apply_event (cb : CircuitBreaker) (ev : BreakerEvent)
  : CircuitBreaker :=
  match ev with
  | Succeeded => recordSuccess cb
  | Failed now => recordFailure now cb
  end.

Definition replay (history : list BreakerEvent) (cb : CircuitBreaker)
  : CircuitBreaker :=
  fold_left apply_event history cb.

(** The times of the failures that came after the last success. *)
Definition consecutive_failures (history : list BreakerEvent) : list Z :=
  fold_left
    (fun acc ev =>
       match ev with
       | Succeeded => []
       | Failed now => (acc ++ [now])%list
       end)
    history [].

Definition is_success (ev : BreakerEvent) : bool :=
  match ev with
  | Succeeded => true
  | Failed _ => false
  end.

(** The test of [categorizeError] on the status codes in the message. *)
Definition has_status_text (message : string) : bool :=
  includes message "401" || includes message "403" || includes message "404".

(** worker.ts, [html.replace(/\s+/g, " ").slice(0, 6000)].  A JavaScript
    string is the list of its UTF-16 code units here, since [\s] and
    [slice] work on code units. *)
Definition isWhitespace (c : Z) : bool :=
  ((9 <=? c) && (c <=? 13)) || (c =? 32) || (c =? 160) || (c =? 5760)
  || ((8192 <=? c) && (c <=? 8202)) || (c =? 8232) || (c =? 8233)
  || (c =? 8239) || (c =? 8287) || (c =? 12288) || (c =? 65279).

(** [replace(/\s+/g, " ")]: each maximal run of white space becomes one
    space; [inRun] tells that the previous code unit was white space. *)
Fixpoint collapseWhitespace (inRun : bool) (s : list Z) : list Z :=
  match s with
  | [] => []
  | c :: rest =>
      if isWhitespace c then
        if inRun then collapseWhitespace true rest
        else 32 :: collapseWhitespace true rest
      else c :: collapseWhitespace false rest
  end.

Definition normalizeHtml (html : list Z) : list Z :=
  slice 0 6000 (collapseWhitespace false html).

(** A text in which white space only occurs as single spaces. *)
Fixpoint single_spaced (afterSpace : bool) (s : list Z) : bool :=
  match s with
  | [] => true
  | c :: rest =>
      if isWhitespace c then
        (c =? 32) && negb afterSpace && single_spaced true rest
      else single_spaced false rest
  end.



(** A result is either a success with data and no error, or a failure
    without data. *)
Definition success_xor_failure (r : ScrapeResult.t) : Prop :=
  (ScrapeResult.success r = true ->
   ScrapeResult.error r = None
   /\ exists features, ScrapeResult.data r = Some features)
  /\ (ScrapeResult.success r = false -> ScrapeResult.data r = None).

(** An operation of the examples that throws [error] while the clock is
    before [deadline] and returns [value] from then on. *)
Definition fails_before {T : Type} (deadline : Z) (error : JsError)
    (value : T) (w : ExampleWorld) : Result JsError T * ExampleWorld :=
  if clock w <? deadline then (Throw error, setTimeout (double_of_Z 10) w)
  else (Ok value, setTimeout (double_of_Z 10) w).

(** A configuration that never attempts anything. *)
Definition no_attempt_config : RetryConfig :=
  {| maxAttempts := 0;
     baseDelay := double_of_Z 1000;
     maxDelay := double_of_Z 30000;
     backoffMultiplier := double_of_Z 2;
     jitter := false |}.

(** ** The order of the numbers, and what rounding returns *)

(** [m / 2^k] rounded to the nearest integer, ties to even. *)
Definition rne (m k : Z) : Z :=
  let q := m / 2 ^ k in
  let low := m mod 2 ^ k in
  match 2 * low ?= 2 ^ k with
  | Lt => q
  | Eq => if Z.even q then q else q + 1
  | Gt => q + 1
  end.

(** Where the [k] bits shifted out, [low], stand against one half. *)
Definition shift_location (k low : Z) : location :=
  if low =? 0 then loc_Exact else loc_Inexact (2 * low ?= 2 ^ k).

(** The state of a right shift of [m] by [k] bits. *)
Definition shifted (m k : Z) (mrs : shr_record) : Prop :=
  0 <= shr_m mrs
  /\ 0 <= m - shr_m mrs * 2 ^ k < 2 ^ k
  /\ loc_of_shr_record mrs = shift_location k (m - shr_m mrs * 2 ^ k).

(** The exponent of a binary64 number with its highest bit at [x]. *)
Definition fexp64 (x : Z) : Z := fexp 53 1024 x.

(** The number [m * 2^e], or infinity above the range. *)
Definition finite_or_inf (m e : Z) : double :=
  match m with
  | Zpos p => if e <=? 971 then S754_finite false p e else S754_infinity false
  | Z0 => S754_zero false
  | Zneg _ => S754_nan
  end.

(** The binary64 number nearest to [m * 2^e], ties to even. *)
Definition round_result (m e : Z) : double :=
  let e' := fexp64 (Zdigits2 m + e) in
  let r := rne m (e' - e) in
  if r =? 2 ^ 53 then finite_or_inf (2 ^ 52) (e' + 1)
  else finite_or_inf r e'.

(** [x <= y], on numbers. *)
Definition double_le (x y : double) : Prop := SFleb x y = true.

(** [+0], a positive number, or [+Infinity]. *)
Definition is_nonneg (x : double) : Prop :=
  match x with
  | S754_zero false | S754_infinity false => True
  | S754_finite false m e => bounded 53 1024 m e = true
  | _ => False
  end.

(** [+0] or a positive number. *)
Definition is_finite_nonneg (x : double) : Prop :=
  match x with
  | S754_zero false => True
  | S754_finite false m e => bounded 53 1024 m e = true
  | _ => False
  end.

(** A place in the order: the exponent first, then the mantissa. *)
Definition rank (x : double) : Z * Z :=
  match x with
  | S754_zero _ => (-2000, 0)
  | S754_finite _ m e => (e, Zpos m)
  | S754_infinity _ => (2000, 0)
  | S754_nan => (3000, 0)
  end.

(** The order of the places. *)
Definition rank_le (a b : Z * Z) : Prop :=
  fst a < fst b \/ (fst a = fst b /\ snd a <= snd b).

(** The number [1]. *)
Definition double_one : double := double_of_Z 1.

(** The sum of two positive numbers, before it is rounded. *)
Definition aligned_sum (mx my : positive) (ex ey : Z) : Z :=
  Zpos mx * 2 ^ (ex - Z.min ex ey) + Zpos my * 2 ^ (ey - Z.min ex ey).

(** * Properties *)

(** ** The map of breakers *)

Section MapFacts.
Context {V : Type}.
Implicit Types (k : string) (v : V) (m : list (string * V)).

Lemma Map_get_set_same k v m : Map_get k (Map_set k v m) = Some v.
Proof.
  induction m as [|[k' v'] m IH]; simpl.
  - now rewrite String.eqb_refl.
  - destruct (String.eqb k' k) eqn:E; simpl; rewrite E; auto.
Qed.

Lemma Map_get_set_other k k' v m :
  k <> k' -> Map_get k' (Map_set k v m) = Map_get k' m.
Proof.
  intros Hne. induction m as [|[k0 v0] m IH]; simpl.
  - destruct (String.eqb_spec k k'); [contradiction | reflexivity].
  - destruct (String.eqb_spec k0 k) as [->|Hk]; simpl.
    + destruct (String.eqb_spec k k'); [contradiction | reflexivity].
    + destruct (String.eqb k0 k'); auto.
Qed.

Lemma Map_set_unchanged k v m : Map_get k m = Some v -> Map_set k v m = m.
Proof.
  induction m as [|[k' v'] m IH]; simpl; [discriminate|].
  destruct (String.eqb k' k); intros Hget.
  - congruence.
  - now rewrite IH.
Qed.

Lemma Map_get_map (f : V -> V) k m :
  Map_get k (map (fun '(d, x) => (d, f x)) m) = option_map f (Map_get k m).
Proof.
  induction m as [|[k' v'] m IH]; simpl; [reflexivity|].
  destruct (String.eqb k' k); auto.
Qed.
End MapFacts.

(** ** The circuit breaker *)

Lemma isOpen_true_iff (now : Z) (cb : CircuitBreaker) :
  fst (isOpen now cb) = true <->
  failureThreshold <= failures cb /\ now - lastFailureTime cb <= resetTimeout.
Proof.
  unfold isOpen. rewrite Z.gtb_ltb.
  destruct (Z.ltb_spec (failures cb) failureThreshold);
    destruct (Z.ltb_spec resetTimeout (now - lastFailureTime cb));
    simpl; split; try discriminate; try lia; auto.
Qed.

Lemma isOpen_true_unchanged (now : Z) (cb : CircuitBreaker) :
  fst (isOpen now cb) = true -> snd (isOpen now cb) = cb.
Proof.
  unfold isOpen.
  destruct (failures cb <? failureThreshold); [discriminate|].
  destruct (now - lastFailureTime cb >? resetTimeout); [discriminate|].
  reflexivity.
Qed.

Lemma isOpen_auto_reset (now : Z) (cb : CircuitBreaker) :
  auto_reset now cb (snd (isOpen now cb)).
Proof.
  unfold auto_reset, isOpen. rewrite Z.gtb_ltb.
  destruct (Z.ltb_spec (failures cb) failureThreshold);
    destruct (Z.ltb_spec resetTimeout (now - lastFailureTime cb));
    simpl; repeat split; auto; lia.
Qed.

Lemma newCircuitBreaker_closed (now : Z) :
  isOpen now newCircuitBreaker = (false, newCircuitBreaker).
Proof. reflexivity. Qed.

Section RegistryFacts.
Context {W : Type} `{Runtime W}.

Lemma registry_isOpen_fst (key : string) (now : Z) (m : Breakers) :
  fst (registry_isOpen key now m) =
  fst (isOpen now (fst (getCircuitBreaker (extractDomain key) m))).
Proof.
  unfold registry_isOpen.
  destruct (getCircuitBreaker (extractDomain key) m) as [cb m'].
  simpl. now destruct (isOpen now cb).
Qed.

Lemma registry_isOpen_present (key : string) (now : Z) (m : Breakers) :
  fst (registry_isOpen key now m) = true ->
  exists cb, Map_get (extractDomain key) m = Some cb
             /\ isOpen now cb = (true, cb).
Proof.
  rewrite registry_isOpen_fst. unfold getCircuitBreaker.
  destruct (Map_get (extractDomain key) m) as [cb|]; simpl.
  - intros Hopen. exists cb. split; [reflexivity|].
    pose proof (isOpen_true_unchanged now cb Hopen).
    destruct (isOpen now cb); simpl in *; congruence.
  - discriminate.
Qed.
End RegistryFacts.

(** ** executeWithRetry: the open circuit *)

Section OpenCircuit.
Context {W : Type} `{Runtime W} {T : Type}.
Variable config : RetryConfig.

Lemma executeWithRetry_open (operation : W -> Result JsError T * W)
    (url context : string) (s : State W) :
  fst (registry_isOpen url (dateNow (world s)) (circuitBreakers s)) = true ->
  executeWithRetry config operation url context s =
  (Throw (ThrowError
            (RetryableError NETWORK_ERROR
               ("Circuit breaker is open for domain " ++ extractDomain url)
               None false)), s).
Proof.
  intros Hopen.
  destruct (registry_isOpen_present _ _ _ Hopen) as (cb & Hget & Hcb).
  unfold executeWithRetry, getCircuitBreaker.
  rewrite Hget, Hcb, (Map_set_unchanged _ _ _ Hget).
  now destruct s.
Qed.

(** C1.  If the breaker of the key is open when [executeWithRetry] is
    called, the call throws an error whose [retryable] flag is [false],
    the operation is not invoked (the counter of invocations and the whole
    state are as before, and the outcome is the same whatever the
    operation is). *)
Theorem open_circuit_fails_without_invoking
    (operation : W -> Result JsError T * W) (url context : string)
    (s : State W) :
  fst (registry_isOpen url (dateNow (world s)) (circuitBreakers s)) = true ->
  exists thrown s',
    executeWithRetry config operation url context s = (Throw thrown, s')
    /\ Thrown_retryable thrown = Some false
    /\ invocations s' = invocations s
    /\ s' = s
    /\ forall operation' : W -> Result JsError T * W,
         executeWithRetry config operation' url context s
         = (Throw thrown, s').
Proof.
  intros Hopen. eexists; exists s.
  split; [apply executeWithRetry_open; exact Hopen|].
  repeat split; try reflexivity.
  intros operation'. apply executeWithRetry_open; exact Hopen.
Qed.
End OpenCircuit.

(** ** The registry: when a breaker is open, and what a query changes *)

Section Registry.
Context {W : Type} `{Runtime W}.

(** C2 (amended).  [isOpen(key)] is true exactly when the failure count of
    the key has reached the threshold and at most [resetTimeout] has
    passed since the last failure; a state created by the query is not
    open; and once more than [resetTimeout] has passed since the last
    failure the query answers false, whatever the counts. *)
Theorem isOpen_iff_threshold_within_timeout
    (key : string) (now : Z) (m : Breakers) :
  let cb := fst (getCircuitBreaker (extractDomain key) m) in
  (fst (registry_isOpen key now m) = true
   <-> failureThreshold <= failures cb
       /\ now - lastFailureTime cb <= resetTimeout)
  /\ (Map_get (extractDomain key) m = None ->
      fst (registry_isOpen key now m) = false)
  /\ (resetTimeout < now - lastFailureTime cb ->
      fst (registry_isOpen key now m) = false).
Proof.
  intros cb. rewrite registry_isOpen_fst. fold cb.
  split; [apply isOpen_true_iff|]. split.
  - intros Hnone. subst cb. unfold getCircuitBreaker. now rewrite Hnone.
  - intros Hlate.
    destruct (fst (isOpen now cb)) eqn:E; [|reflexivity].
    apply isOpen_true_iff in E. lia.
Qed.

(** C7 (amended).  A query never changes the success count or the time of
    the last failure of any key.  [isOpen(key)] sets the failure count of
    the key's breaker to 0 when that count has reached the threshold and
    more than [resetTimeout] has passed since the last failure, leaves it
    as it is in every other case, and leaves the breakers of the other
    domains as they are; [getStats] does to every breaker what [isOpen]
    does to the one it asks, and leaves the world as it is.  A domain
    without a breaker still has none after a query, except the domain that
    [isOpen] asks about, which gets a fresh breaker with all counts 0. *)
Theorem queries_only_auto_reset
    (key domain : string) (now : Z) (m : Breakers) (s : State W)
    (cb : CircuitBreaker) :
  (Map_get domain m = Some cb ->
   exists cb',
     Map_get domain (snd (registry_isOpen key now m)) = Some cb'
     /\ (domain = extractDomain key -> auto_reset now cb cb')
     /\ (domain <> extractDomain key -> cb' = cb))
  /\ (Map_get domain (circuitBreakers s) = Some cb ->
      exists cb',
        Map_get domain (circuitBreakers (snd (getStats s))) = Some cb'
        /\ auto_reset (dateNow (world s)) cb cb')
  /\ world (snd (getStats s)) = world s
  /\ (Map_get domain m = None ->
      Map_get domain (snd (registry_isOpen key now m))
      = if String.eqb (extractDomain key) domain
        then Some newCircuitBreaker else None)
  /\ (Map_get domain (circuitBreakers s) = None ->
      Map_get domain (circuitBreakers (snd (getStats s))) = None).
Proof.
  split; [|split; [|split; [|split]]].
  - intros Hget. unfold registry_isOpen, getCircuitBreaker.
    destruct (String.eqb_spec (extractDomain key) domain) as [Heq|Hne].
    + rewrite Heq, Hget.
      pose proof (isOpen_auto_reset now cb) as Hreset.
      destruct (isOpen now cb) as [open cb']. cbn [snd] in *.
      exists cb'. rewrite Map_get_set_same. split; [reflexivity|].
      split; [intros _; exact Hreset|].
      intros Hd. now contradiction Hd.
    + exists cb. split; [|split].
      * destruct (Map_get (extractDomain key) m) as [cb0|].
        -- destruct (isOpen now cb0) as [open cb']. simpl.
           now rewrite Map_get_set_other.
        -- rewrite newCircuitBreaker_closed. simpl.
           now rewrite !Map_get_set_other.
      * intros Hd. now contradiction Hne.
      * reflexivity.
  - intros Hget. exists (snd (isOpen (dateNow (world s)) cb)). split.
    + unfold getStats. simpl.
      rewrite (Map_get_map (fun x => snd (isOpen (dateNow (world s)) x))).
      now rewrite Hget.
    + apply isOpen_auto_reset.
  - reflexivity.
  - intros Hnone. unfold registry_isOpen, getCircuitBreaker.
    destruct (String.eqb_spec (extractDomain key) domain) as [Heq|Hne].
    + rewrite Heq, Hnone, newCircuitBreaker_closed. simpl.
      now rewrite Map_get_set_same.
    + destruct (Map_get (extractDomain key) m) as [cb0|].
      * destruct (isOpen now cb0) as [open cb']. simpl.
        now rewrite Map_get_set_other.
      * rewrite newCircuitBreaker_closed. simpl.
        now rewrite !Map_get_set_other.
  - intros Hnone. unfold getStats. simpl.
    rewrite (Map_get_map (fun x => snd (isOpen (dateNow (world s)) x))).
    now rewrite Hnone.
Qed.
End Registry.

(** ** executeWithRetry: the attempts *)

Lemma categorizeError_attempt (error : JsError) (url : string) (attempt : Z)
    (context : string) (now : Z) :
  DetailedError.attempt (categorizeError error url attempt context now)
  = attempt.
Proof.
  unfold categorizeError.
  match goal with
  | |- context [let '(_, _) := ?x in _] => destruct x
  end.
  reflexivity.
Qed.

Lemma attemptRange_bounds (n a : Z) : In a (attemptRange n) -> 1 <= a <= n.
Proof.
  unfold attemptRange. rewrite in_map_iff.
  intros (k & <- & Hk). apply in_seq in Hk. lia.
Qed.

Lemma on_breaker_get (domain : string) (f : CircuitBreaker -> CircuitBreaker)
    (m : Breakers) (cb : CircuitBreaker) :
  Map_get domain m = Some cb ->
  Map_get domain (on_breaker domain f m) = Some (f cb).
Proof.
  intros Hget. unfold on_breaker. rewrite Hget. apply Map_get_set_same.
Qed.

Section Attempts.
Context {W : Type} `{Runtime W} {T : Type}.
Variable config : RetryConfig.
Variable operation : W -> Result JsError T * W.
Variables (url context domain : string).

Local Abbreviation loop :=
  (attemptLoop config operation url context domain).

(** Whatever the operation does, a [DetailedError] that leaves the loop
    carries the number of an attempt of the loop. *)
Lemma attemptLoop_attempt_bounds (attempts : list Z) :
  (forall a, In a attempts -> 1 <= a <= maxAttempts config) ->
  forall lastError s d s',
    (forall d0, lastError = Some d0 ->
                1 <= DetailedError.attempt d0 <= maxAttempts config) ->
    loop attempts lastError s = (Throw (ThrowDetailed d), s') ->
    1 <= DetailedError.attempt d <= maxAttempts config.
Proof.
  induction attempts as [|attempt rest IH]; intros Hrange lastError s d s' Hlast.
  - simpl. destruct lastError as [d0|]; simpl; intros Heq.
    + injection Heq as <- _. now apply Hlast.
    + discriminate Heq.
  - simpl. destruct (operation (world s)) as [[v|error] w]; [discriminate|].
    destruct (negb _ || _).
    + simpl. intros Heq. injection Heq as <- _.
      rewrite categorizeError_attempt. apply Hrange. now left.
    + destruct (calculateDelay config attempt w) as [delay w1].
      apply IH.
      * intros a Ha. apply Hrange. now right.
      * intros d0 Hd0. injection Hd0 as <-.
        rewrite categorizeError_attempt. apply Hrange. now left.
Qed.

(** An operation that always fails with a retryable error is invoked once
    for each remaining attempt; the error thrown is the one of the last
    attempt, and each failure is recorded in the breaker. *)
Lemma attemptLoop_all_fail :
  fails_retryable operation url context ->
  forall k a lastError s,
    Z.of_nat (a + k) = maxAttempts config ->
    exists d s',
      loop (map Z.of_nat (seq a (S k))) lastError s
      = (Throw (ThrowDetailed d), s')
      /\ DetailedError.attempt d = maxAttempts config
      /\ invocations s' = (invocations s + S k)%nat
      /\ forall cb,
           Map_get domain (circuitBreakers s) = Some cb ->
           exists cb',
             Map_get domain (circuitBreakers s') = Some cb'
             /\ failures cb' = failures cb + Z.of_nat (S k)
             /\ successes cb' = successes cb
             /\ lastFailureTime cb' = dateNow (world s').
Proof.
  intros Hfail. induction k as [|k IH]; intros a lastError s Hmax.
  - change (map Z.of_nat (seq a 1)) with [Z.of_nat a].
    cbn [attemptLoop].
    destruct (Hfail (world s)) as (error & w' & Hop & Hretry).
    rewrite Hop, Hretry. simpl (negb _).
    replace (Z.of_nat a =? maxAttempts config) with true
      by (symmetry; apply Z.eqb_eq; lia).
    simpl. eexists; eexists. split; [reflexivity|].
    rewrite categorizeError_attempt. split; [lia|]. split; [simpl; lia|].
    intros cb Hget. eexists. split; [apply on_breaker_get, Hget|].
    simpl. repeat split; lia.
  - change (map Z.of_nat (seq a (S (S k))))
      with (Z.of_nat a :: map Z.of_nat (seq (S a) (S k))).
    cbn [attemptLoop].
    destruct (Hfail (world s)) as (error & w' & Hop & Hretry).
    rewrite Hop, Hretry. simpl (negb _).
    replace (Z.of_nat a =? maxAttempts config) with false
      by (symmetry; apply Z.eqb_neq; lia).
    simpl (false || false).
    cbv iota.
    destruct (calculateDelay config (Z.of_nat a) w') as [delay w1].
    edestruct (IH (S a)) as (d & s' & Hloop & Hatt & Hinv & Hcb);
      [lia|].
    exists d, s'. split; [exact Hloop|]. split; [exact Hatt|].
    split; [simpl in Hinv; lia|].
    intros cb Hget.
    destruct (Hcb (recordFailure (dateNow w') cb)) as (cb' & Hget' & Hf & Hs & Ht).
    { simpl. apply on_breaker_get, Hget. }
    exists cb'. split; [exact Hget'|]. simpl in Hf, Hs. repeat split; lia.
Qed.
End Attempts.

Section RetryScenarios.
Context {W : Type} `{Runtime W} {T : Type}.
Variable config : RetryConfig.

(** [executeWithRetry] is the query of the key's breaker followed, when
    the breaker is closed, by the loop of attempts. *)
Lemma executeWithRetry_unfold (operation : W -> Result JsError T * W)
    (url context : string) (s : State W) :
  let q := registry_isOpen url (dateNow (world s)) (circuitBreakers s) in
  let s1 := mkState (world s) (snd q) (invocations s) in
  executeWithRetry config operation url context s =
  if fst q then
    (Throw (ThrowError
              (RetryableError NETWORK_ERROR
                 ("Circuit breaker is open for domain " ++ extractDomain url)
                 None false)), s1)
  else
    attemptLoop config operation url context (extractDomain url)
      (attemptRange (maxAttempts config)) None s1.
Proof.
  unfold executeWithRetry, registry_isOpen.
  destruct (getCircuitBreaker (extractDomain url) (circuitBreakers s))
    as [cb m].
  destruct (isOpen (dateNow (world s)) cb) as [open cb'].
  reflexivity.
Qed.

(** C3.  With [maxAttempts = 3] and the circuit closed at entry, an
    operation that fails at every invocation with a retryable error is
    invoked exactly 3 times: in the world of the call, in the world after
    the first backoff and in the world after the second backoff.  The
    error thrown is the classification of the third failure, with
    [attempt = 3], and the world is left as the third invocation left it.
    Whatever the operation, the [attempt] of a thrown classified error is
    at least 1 and at most [maxAttempts]. *)
Theorem failing_operation_is_tried_three_times
    (operation : W -> Result JsError T * W) (url context : string)
    (s : State W) :
  (maxAttempts config = 3 ->
   fst (registry_isOpen url (dateNow (world s)) (circuitBreakers s)) = false ->
   fails_retryable operation url context ->
   exists e1 w1 e2 w2 e3 w3 d s',
     operation (world s) = (Throw e1, w1)
     /\ operation (after_backoff config 1 w1) = (Throw e2, w2)
     /\ operation (after_backoff config 2 w2) = (Throw e3, w3)
     /\ executeWithRetry config operation url context s
        = (Throw (ThrowDetailed d), s')
     /\ d = categorizeError e3 url 3 context (dateNow w3)
     /\ DetailedError.attempt d = 3
     /\ world s' = w3
     /\ invocations s' = (invocations s + 3)%nat)
  /\ (forall d s',
        executeWithRetry config operation url context s
        = (Throw (ThrowDetailed d), s') ->
        1 <= DetailedError.attempt d <= maxAttempts config).
Proof.
  pose proof (executeWithRetry_unfold operation url context s) as Hexec.
  cbv zeta in Hexec. split.
  - intros Hmax Hclosed Hfail. rewrite Hexec, Hclosed, Hmax.
    change (attemptRange 3) with [1; 2; 3].
    destruct (Hfail (world s)) as (e1 & w1 & Hop1 & Hr1).
    destruct (Hfail (after_backoff config 1 w1)) as (e2 & w2 & Hop2 & Hr2).
    destruct (Hfail (after_backoff config 2 w2)) as (e3 & w3 & Hop3 & Hr3).
    exists e1, w1, e2, w2, e3, w3,
      (categorizeError e3 url 3 context (dateNow w3)).
    assert (Hloop : exists s',
               attemptLoop config operation url context (extractDomain url)
                 [1; 2; 3] None
                 (mkState (world s)
                    (snd (registry_isOpen url (dateNow (world s))
                            (circuitBreakers s)))
                    (invocations s))
               = (Throw (ThrowDetailed
                           (categorizeError e3 url 3 context (dateNow w3))),
                  s')
               /\ world s' = w3
               /\ invocations s' = (invocations s + 3)%nat).
    { pose proof Hop2 as Hop2'. pose proof Hop3 as Hop3'.
      unfold after_backoff in Hop2', Hop3'.
      cbn [attemptLoop world]. rewrite Hop1, Hr1, Hmax.
      cbn [truthy negb orb Z.eqb Pos.eqb].
      destruct (calculateDelay config 1 w1) as [delay1 w1'].
      cbn [world]. rewrite Hop2', Hr2.
      cbn [truthy negb orb Z.eqb Pos.eqb].
      destruct (calculateDelay config 2 w2) as [delay2 w2'].
      cbn [world]. rewrite Hop3', Hr3.
      cbn [truthy negb orb Z.eqb Pos.eqb allAttemptsFailed].
      eexists. split; [reflexivity|]. split; [reflexivity|].
      cbn [invocations]. lia. }
    destruct Hloop as (s' & Hloop & Hw & Hinv). exists s'.
    split; [exact Hop1|]. split; [exact Hop2|]. split; [exact Hop3|].
    split; [exact Hloop|]. split; [reflexivity|].
    split; [apply categorizeError_attempt|]. split; assumption.
  - intros d s'. rewrite Hexec.
    destruct (fst (registry_isOpen _ _ _)); [discriminate|].
    apply attemptLoop_attempt_bounds.
    + apply attemptRange_bounds.
    + discriminate.
Qed.
End RetryScenarios.

(** ** categorizeError *)

(** The branch for [RetryableError] is reached, and then hands the marker
    on, when no earlier pattern matches the message or the context. *)
Lemma categorizeError_marker_reached (errorType : ErrorType) (msg : string)
    (orig : option JsError) (flag : bool) (url : string) (attempt : Z)
    (context : string) (now : Z) :
  msg <> "" ->
  includes msg "timeout" = false ->
  includes msg "Navigation timeout" = false ->
  includes msg "JSON" = false -> includes msg "parse" = false ->
  includes context "extract" = false ->
  includes msg "AI" = false -> includes msg "OpenAI" = false ->
  includes msg "401" = false -> includes msg "403" = false ->
  includes msg "404" = false ->
  let d := categorizeError (RetryableError errorType msg orig flag)
             url attempt context now in
  DetailedError.type d = Some errorType
  /\ DetailedError.retryable d = Some flag.
Proof.
  intros Hmsg H1 H2 H3 H4 H5 H6 H7 H8 H9 H10.
  assert (Hdefault :
            message_or_default (RetryableError errorType msg orig flag) = msg).
  { unfold message_or_default. simpl.
    destruct (String.eqb_spec msg ""); [contradiction | reflexivity]. }
  unfold categorizeError. rewrite Hdefault.
  rewrite H1, H2, H3, H4, H5, H6, H7, H8, H9, H10. split; reflexivity.
Qed.

(** C8 (the code at the failing input).  The error that worker.ts throws
    for a client error of the model service carries [retryable = false];
    classified in the context of feature extraction it comes out retryable,
    and [extractFeatures] calls the service three times.  The error that
    worker.ts throws for missing fields carries the kind [PARSING_ERROR]
    and comes out as [AI_EXTRACTION_ERROR]. *)
Theorem classified_marker_is_overridden :
  let client_error :=
    RetryableError AI_EXTRACTION_ERROR "OpenAI client error: Bad request"
      (Some (http_error 400 "Bad request")) false in
  let missing_fields :=
    RetryableError PARSING_ERROR
      "Missing required fields in AI response: elevator" None true in
  extractFeatures_catch undefined_type_error (http_error 400 "Bad request")
  = client_error
  /\ err_retryable client_error = Some false
  /\ DetailedError.retryable
       (categorizeError client_error "AI-extraction" 1 "feature extraction" 0)
     = Some true
  /\ invocations
       (snd (extractFeatures bad_request undefined_type_error "page text"
               (example_state 0 [])))
     = 3%nat
  /\ err_errorType missing_fields = Some PARSING_ERROR
  /\ DetailedError.type
       (categorizeError missing_fields "AI-extraction" 1 "feature extraction" 0)
     = Some AI_EXTRACTION_ERROR.
Proof. repeat split. Qed.

(** C9 (amended).  An error whose message contains the text 401, 403 or 404
    is classified as not retryable, whatever kind the other rules give. *)
Theorem status_text_in_message_is_not_retryable
    (error : JsError) (url : string) (attempt : Z) (context : string)
    (now : Z) :
  includes (message_or_default error) "401" = true
  \/ includes (message_or_default error) "403" = true
  \/ includes (message_or_default error) "404" = true ->
  DetailedError.retryable (categorizeError error url attempt context now)
  = Some false.
Proof.
  intros Hcode.
  assert (Hor : includes (message_or_default error) "401"
                || includes (message_or_default error) "403"
                || includes (message_or_default error) "404" = true).
  { destruct Hcode as [-> | [-> | ->]];
      rewrite ?orb_true_r; reflexivity. }
  unfold categorizeError.
  match goal with
  | |- context [let '(_, _) := ?x in _] => destruct x
  end.
  simpl. now rewrite Hor.
Qed.

(** Witness of C9: a refused connection (kind [NETWORK_ERROR], which the
    first rule makes retryable) whose message mentions 403. *)
Lemma status_text_in_message_witness :
  includes "connect ECONNREFUSED (proxy answered 403)" "403" = true
  /\ DetailedError.retryable
       (categorizeError
          {| err_name := Some "Error";
             err_code := Some "ECONNREFUSED";
             err_status := None;
             err_message := Some "connect ECONNREFUSED (proxy answered 403)";
             err_errorType := None;
             err_retryable := None;
             err_originalError := None;
             err_isError := true |}
          "https://a.example/" 1 "scraping" 0)
     = Some false.
Proof.
  split; [reflexivity|].
  apply status_text_in_message_is_not_retryable.
  right; left; reflexivity.
Defined.

(** Counterexample of C9: an error that carries the status code 404 in its
    [status] field, and not in its message, stays retryable. *)
Lemma status_field_alone_stays_retryable :
  err_status (http_error 404 "Not Found") = Some 404
  /\ DetailedError.retryable
       (categorizeError (http_error 404 "Not Found")
          "https://a.example/" 1 "scraping" 0)
     = Some true.
Proof. split; reflexivity. Qed.

(** ** Examples of the retry manager *)

(** Witness of C1: a breaker with five failures, the last one a second
    ago. *)
Lemma open_circuit_witness :
  fst (registry_isOpen "https://a.example/rooms"
         (dateNow (world (example_state 1000 example_breakers)))
         (circuitBreakers (example_state 1000 example_breakers))) = true
  /\ exists thrown s',
       executeWithRetry defaultConfig
         (always_throws (T:=string) connection_refused)
         "https://a.example/rooms" "scraping"
         (example_state 1000 example_breakers)
       = (Throw thrown, s')
       /\ Thrown_retryable thrown = Some false
       /\ invocations s' = 0%nat.
Proof.
  assert (Hopen : fst (registry_isOpen "https://a.example/rooms"
                         (dateNow (world (example_state 1000 example_breakers)))
                         (circuitBreakers (example_state 1000 example_breakers)))
                  = true)
    by reflexivity.
  split; [exact Hopen|].
  destruct (open_circuit_fails_without_invoking defaultConfig
              (always_throws (T:=string) connection_refused)
              "https://a.example/rooms" "scraping"
              (example_state 1000 example_breakers) Hopen)
    as (thrown & s' & Hexec & Hflag & Hcount & _).
  exists thrown, s'. auto.
Defined.

(** Witness of C2: the tripped breaker is open up to a minute after its
    last failure and closed from then on; a key never seen is closed. *)
Lemma isOpen_reset_witness :
  fst (registry_isOpen (W:=ExampleWorld) "https://a.example/" 60000
         example_breakers) = true
  /\ fst (registry_isOpen (W:=ExampleWorld) "https://a.example/" 60001
            example_breakers) = false
  /\ fst (registry_isOpen (W:=ExampleWorld) "https://b.example/" 10
            example_breakers) = false.
Proof.
  split; [|split].
  - apply (proj1 (isOpen_iff_threshold_within_timeout (W:=ExampleWorld)
                    "https://a.example/" 60000 example_breakers)).
    vm_compute. split; discriminate.
  - apply (proj2 (proj2 (isOpen_iff_threshold_within_timeout (W:=ExampleWorld)
                           "https://a.example/" 60001 example_breakers))).
    reflexivity.
  - apply (proj1 (proj2 (isOpen_iff_threshold_within_timeout (W:=ExampleWorld)
                           "https://b.example/" 10 example_breakers))).
    reflexivity.
Defined.

(** Counterexample of C2: exactly [resetTimeout] after the last failure the
    breaker is still open, although the time passed is not strictly less
    than [resetTimeout]. *)
Lemma isOpen_at_timeout_counterexample :
  ~ (fst (registry_isOpen (W:=ExampleWorld) "https://a.example/" 60000
            example_breakers) = true
     <-> failureThreshold <= failures tripped
         /\ 60000 - lastFailureTime tripped < resetTimeout).
Proof.
  intros [Hopen _]. specialize (Hopen eq_refl).
  destruct Hopen as [_ Hlt]. vm_compute in Hlt. discriminate Hlt.
Qed.

(** Witness of C7: asked after the timeout, the tripped breaker has its
    failure count set to 0 and keeps its success count and the time of its
    last failure. *)
Lemma queries_only_auto_reset_witness :
  Map_get "a.example" example_breakers = Some tripped
  /\ exists cb',
       Map_get "a.example"
         (snd (registry_isOpen (W:=ExampleWorld) "https://a.example/" 60001
                 example_breakers)) = Some cb'
       /\ failures cb' = 0
       /\ successes cb' = 0
       /\ lastFailureTime cb' = 0.
Proof.
  split; [reflexivity|].
  destruct (proj1 (queries_only_auto_reset (W:=ExampleWorld)
                     "https://a.example/" "a.example" 60001 example_breakers
                     (example_state 60001 example_breakers) tripped) eq_refl)
    as (cb' & Hget & Hreset & _).
  destruct (Hreset eq_refl) as (Hs & Ht & Hzero & _).
  exists cb'. split; [exact Hget|]. split; [|split; assumption].
  apply Hzero; vm_compute; [discriminate | reflexivity].
Defined.

(** Counterexample of C7: after the timeout, [isOpen] and [getStats] both
    set the failure count of the tripped breaker to 0. *)
Lemma queries_reset_failures_counterexample :
  Map_get "a.example" example_breakers = Some tripped
  /\ Map_get "a.example"
       (snd (registry_isOpen (W:=ExampleWorld) "https://a.example/" 60001
               example_breakers)) = Some reset_breaker
  /\ Map_get "a.example"
       (circuitBreakers
          (snd (getStats (example_state 60001 example_breakers))))
     = Some reset_breaker
  /\ failures reset_breaker <> failures tripped.
Proof. repeat split. discriminate. Qed.

(** Witness of C3: a connection that is refused at every attempt, each
    attempt taking 10 ms, with backoffs of 500 ms and 1000 ms. *)
Lemma three_attempts_witness :
  exists d s',
    executeWithRetry defaultConfig
      (always_throws (T:=string) connection_refused)
      "https://a.example/rooms" "scraping" (example_state 100 [])
    = (Throw (ThrowDetailed d), s')
    /\ DetailedError.attempt d = 3
    /\ DetailedError.timestamp d = 1630
    /\ clock (world s') = 1630
    /\ invocations s' = 3%nat.
Proof.
  destruct (proj1 (failing_operation_is_tried_three_times defaultConfig
                     (always_throws (T:=string) connection_refused)
                     "https://a.example/rooms" "scraping"
                     (example_state 100 [])))
    as (e1 & w1 & e2 & w2 & e3 & w3 & d & s'
        & Hop1 & Hop2 & Hop3 & Hexec & Hd & Hatt & Hw & Hinv);
    [reflexivity | reflexivity | |].
  - intros w. exists connection_refused, (setTimeout (double_of_Z 10) w).
    split; [reflexivity|]. intros attempt now. reflexivity.
  - exists d, s'. split; [exact Hexec|]. split; [exact Hatt|].
    injection Hop1 as <- <-. injection Hop2 as <- <-.
    injection Hop3 as <- <-.
    rewrite Hd, Hw. repeat split. exact Hinv.
Defined.

(** ** Rounding in binary64

    [SFmul] and [SFadd] round to the nearest number, ties to even.  What
    follows establishes that on the definitions of the Standard Library,
    and from it that products, sums, [Math.min] and [Math.floor] keep the
    order of the numbers that are not negative. *)

Lemma digits2_size (m : positive) : digits2_pos m = Pos.size m.
Proof. induction m; simpl; congruence. Qed.

Lemma digits_bounds (m : positive) :
  2 ^ (Zpos (digits2_pos m) - 1) <= Zpos m < 2 ^ Zpos (digits2_pos m).
Proof.
  induction m as [m IH|m IH|]; cbn [digits2_pos].
  - rewrite Pos2Z.inj_succ.
    replace (Z.succ (Zpos (digits2_pos m)) - 1) with ((Zpos (digits2_pos m) - 1) + 1) by lia.
    rewrite Z.pow_succ_r by lia. rewrite Z.pow_add_r by lia. lia.
  - rewrite Pos2Z.inj_succ.
    replace (Z.succ (Zpos (digits2_pos m)) - 1) with ((Zpos (digits2_pos m) - 1) + 1) by lia.
    rewrite Z.pow_succ_r by lia. rewrite Z.pow_add_r by lia. lia.
  - simpl. lia.
Qed.

Lemma digits_unique (m : positive) (k : Z) :
  2 ^ (k - 1) <= Zpos m < 2 ^ k -> Zpos (digits2_pos m) = k.
Proof.
  intros [Hlo Hhi]. pose proof (digits_bounds m) as [Hlo' Hhi'].
  assert (Hk : 0 < k).
  { destruct (Z.lt_trichotomy k 0) as [Hneg|[Hz|Hpos]]; [| |exact Hpos].
    - rewrite (Z.pow_neg_r 2 k) in Hhi by lia. lia.
    - subst k. simpl in Hhi. lia. }
  destruct (Z.lt_trichotomy (Zpos (digits2_pos m)) k) as [Hlt|[Heq|Hgt]]; [|exact Heq|].
  - assert (2 ^ Zpos (digits2_pos m) <= 2 ^ (k - 1)) by (apply Z.pow_le_mono_r; lia). lia.
  - assert (2 ^ k <= 2 ^ (Zpos (digits2_pos m) - 1)) by (apply Z.pow_le_mono_r; lia). lia.
Qed.

Lemma shifted_start (m : Z) : 0 <= m -> shifted m 0 (Build_shr_record m false false).
Proof.
  intros Hm. unfold shifted, shift_location. simpl.
  replace (m - m * 1) with 0 by lia. simpl. repeat split; lia.
Qed.

Lemma shifted_step (m k : Z) (mrs : shr_record) :
  0 <= k -> shifted m k mrs -> shifted m (k + 1) (shr_1 mrs).
Proof.
  intros Hk (Hq & Hlow & Hloc).
  destruct mrs as [q r s]. cbn [shr_m] in *.
  set (low := m - q * 2 ^ k) in *.
  assert (Hpow : 2 ^ (k + 1) = 2 * 2 ^ k) by (rewrite Z.pow_add_r by lia; lia).
  assert (Hpos : 0 < 2 ^ k) by (apply Z.pow_pos_nonneg; lia).
  assert (Hs : orb r s = negb (low =? 0)).
  { unfold shift_location in Hloc. destruct (Z.eqb_spec low 0) as [Hz|Hnz];
      destruct r, s; simpl in *; try discriminate; reflexivity. }
  assert (Hcmp : low <> 0 ->
                 (r = false <-> 2 * low < 2 ^ k)).
  { intros Hnz. unfold shift_location in Hloc.
    destruct (Z.eqb_spec low 0) as [Hz|_]; [contradiction|].
    destruct (Z.compare_spec (2 * low) (2 ^ k)) as [Hc|Hc|Hc];
      destruct r, s; cbn [loc_of_shr_record] in Hloc; try discriminate;
      split; intros; try reflexivity; try discriminate; try lia. }
  assert (Hr0 : low = 0 -> r = false).
  { intros Hz. unfold shift_location in Hloc. rewrite Hz in Hloc. simpl in Hloc.
    destruct r, s; simpl in Hloc; try discriminate; reflexivity. }
  unfold shifted, shift_location. rewrite Hpow.
  destruct q as [|p|p]; [| |lia].
  - cbn [shr_1 shr_m]. rewrite Hs.
    replace (m - 0 * (2 * 2 ^ k)) with low by (unfold low; lia).
    split; [lia|]. split; [lia|].
    destruct (Z.eqb_spec low 0) as [Hz|Hnz]; cbn [negb loc_of_shr_record];
      [reflexivity|].
    f_equal. symmetry. apply Z.compare_lt_iff. lia.
  - destruct p as [p|p|]; cbn [shr_1 shr_m]; rewrite Hs.
    + replace (m - Zpos p * (2 * 2 ^ k)) with (2 ^ k + low)
        by (unfold low; lia).
      split; [lia|]. split; [lia|].
      destruct (Z.eqb_spec (2 ^ k + low) 0) as [Hz|_]; [lia|].
      destruct (Z.eqb_spec low 0) as [Hz|Hnz]; cbn [negb loc_of_shr_record];
        f_equal; symmetry.
      * apply Z.compare_eq_iff. lia.
      * apply Z.compare_gt_iff. lia.
    + replace (m - Zpos p * (2 * 2 ^ k)) with low by (unfold low; lia).
      split; [lia|]. split; [lia|].
      destruct (Z.eqb_spec low 0) as [Hz|Hnz]; cbn [negb loc_of_shr_record];
      [reflexivity|].
      f_equal. symmetry. apply Z.compare_lt_iff. lia.
    + replace (m - 0 * (2 * 2 ^ k)) with (2 ^ k + low) by (unfold low; lia).
      split; [lia|]. split; [lia|].
      destruct (Z.eqb_spec (2 ^ k + low) 0) as [Hz|_]; [lia|].
      destruct (Z.eqb_spec low 0) as [Hz|Hnz]; cbn [negb loc_of_shr_record];
        f_equal; symmetry.
      * apply Z.compare_eq_iff. lia.
      * apply Z.compare_gt_iff. lia.
Qed.

Lemma shifted_iter (m : Z) (p : positive) :
  forall k mrs, 0 <= k -> shifted m k mrs ->
                shifted m (k + Zpos p) (iter_pos shr_1 p mrs).
Proof.
  induction p as [p IH|p IH|]; intros k mrs Hk Hs; cbn [iter_pos].
  - replace (k + Zpos p~1) with (((k + 1) + Zpos p) + Zpos p) by lia.
    apply IH; [lia|]. apply IH; [lia|]. now apply shifted_step.
  - replace (k + Zpos p~0) with ((k + Zpos p) + Zpos p) by lia.
    apply IH; [lia|]. now apply IH.
  - now apply shifted_step.
Qed.

(** Rounding after a shift is [rne]. *)
Lemma shifted_rne (m k : Z) (mrs : shr_record) :
  0 <= k -> shifted m k mrs ->
  round_nearest_even (shr_m mrs) (loc_of_shr_record mrs) = rne m k.
Proof.
  intros Hk (Hq & Hlow & Hloc).
  assert (Hpos : 0 < 2 ^ k) by (apply Z.pow_pos_nonneg; lia).
  set (q := shr_m mrs) in *. set (low := m - q * 2 ^ k) in *.
  assert (Hdiv : m / 2 ^ k = q).
  { symmetry. apply (Z.div_unique m (2 ^ k) q low); [lia | unfold low; lia]. }
  assert (Hmod : m mod 2 ^ k = low).
  { symmetry. apply (Z.mod_unique m (2 ^ k) q low); [lia | unfold low; lia]. }
  unfold rne. rewrite Hdiv, Hmod, Hloc. unfold shift_location.
  destruct (Z.eqb_spec low 0) as [Hz|Hnz].
  - rewrite Hz. change (2 * 0) with 0.
    destruct (Z.compare_spec 0 (2 ^ k)); try lia. reflexivity.
  - cbn [round_nearest_even]. destruct (2 * low ?= 2 ^ k); reflexivity.
Qed.

(** ** Properties of [rne] *)

Lemma rne_bounds (m k : Z) :
  0 <= k -> m / 2 ^ k <= rne m k <= m / 2 ^ k + 1.
Proof.
  intros Hk. unfold rne.
  destruct (2 * (m mod 2 ^ k) ?= 2 ^ k); [destruct (Z.even _)| |]; lia.
Qed.

Lemma rne_exact (q k : Z) : 0 <= k -> rne (q * 2 ^ k) k = q.
Proof.
  intros Hk. unfold rne.
  assert (Hpos : 0 < 2 ^ k) by (apply Z.pow_pos_nonneg; lia).
  rewrite Z.div_mul by lia. rewrite Z.mod_mul by lia.
  change (2 * 0) with 0.
  destruct (Z.compare_spec 0 (2 ^ k)); lia.
Qed.

Lemma rne_0 (m : Z) : rne m 0 = m.
Proof.
  replace m with (m * 2 ^ 0) at 1 by (simpl; lia). now apply rne_exact.
Qed.

Lemma rne_monotone (m m' k : Z) :
  0 <= k -> m <= m' -> rne m k <= rne m' k.
Proof.
  intros Hk Hle.
  assert (Hpos : 0 < 2 ^ k) by (apply Z.pow_pos_nonneg; lia).
  pose proof (Z.div_le_mono m m' (2 ^ k) Hpos Hle) as Hq.
  pose proof (Z.div_mod m (2 ^ k) ltac:(lia)) as Hm.
  pose proof (Z.div_mod m' (2 ^ k) ltac:(lia)) as Hm'.
  pose proof (Z.mod_pos_bound m (2 ^ k) Hpos) as Hb.
  pose proof (Z.mod_pos_bound m' (2 ^ k) Hpos) as Hb'.
  destruct (Z.eq_dec (m / 2 ^ k) (m' / 2 ^ k)) as [Heq|Hne].
  - unfold rne. rewrite <- Heq.
    assert (Hlow : m mod 2 ^ k <= m' mod 2 ^ k) by nia.
    destruct (Z.compare_spec (2 * (m mod 2 ^ k)) (2 ^ k));
      destruct (Z.compare_spec (2 * (m' mod 2 ^ k)) (2 ^ k));
      try destruct (Z.even _); lia.
  - pose proof (rne_bounds m k Hk). pose proof (rne_bounds m' k Hk). lia.
Qed.

Lemma rne_shift (m k j : Z) :
  0 <= k -> 0 <= j -> rne (m * 2 ^ j) (k + j) = rne m k.
Proof.
  intros Hk Hj. unfold rne.
  assert (Hpk : 0 < 2 ^ k) by (apply Z.pow_pos_nonneg; lia).
  assert (Hpj : 0 < 2 ^ j) by (apply Z.pow_pos_nonneg; lia).
  rewrite Z.pow_add_r by lia.
  rewrite Z.div_mul_cancel_r by lia.
  rewrite Z.mul_mod_distr_r by lia.
  replace (2 * (m mod 2 ^ k * 2 ^ j)) with (2 * (m mod 2 ^ k) * 2 ^ j) by lia.
  assert (Hcmp : (2 * (m mod 2 ^ k) * 2 ^ j ?= 2 ^ k * 2 ^ j)
                 = (2 * (m mod 2 ^ k) ?= 2 ^ k)).
  { destruct (Z.compare_spec (2 * (m mod 2 ^ k)) (2 ^ k)) as [H|H|H].
    - apply Z.compare_eq_iff. nia.
    - apply Z.compare_lt_iff. nia.
    - apply Z.compare_gt_iff. nia. }
  now rewrite Hcmp.
Qed.

(** ** What [binary_round_aux] returns *)

Lemma fexp64_eq (x : Z) : fexp64 x = Z.max (x - 53) (-1074).
Proof. reflexivity. Qed.

(** The mantissa after the first rounding has at most 53 digits, or is
    [2^53]. *)
Lemma rne_mantissa (m : positive) (e : Z) :
  let e' := fexp64 (Zpos (digits2_pos m) + e) in
  e <= e' ->
  0 <= rne (Zpos m) (e' - e) <= 2 ^ 53
  /\ (-1074 < e' -> 2 ^ 52 <= rne (Zpos m) (e' - e)).
Proof.
  intros e' He. subst e'. rewrite fexp64_eq in *.
  set (d := Zpos (digits2_pos m)) in *.
  pose proof (digits_bounds m) as [Hlo Hhi]. fold d in Hlo, Hhi.
  assert (Hd : 0 < d) by (unfold d; lia).
  set (n := Z.max (d + e - 53) (-1074) - e) in *.
  assert (Hn : 0 <= n) by lia.
  assert (Hpn : 0 < 2 ^ n) by (apply Z.pow_pos_nonneg; lia).
  pose proof (rne_bounds (Zpos m) n Hn) as Hb.
  assert (Hq0 : 0 <= Zpos m / 2 ^ n) by (apply Z.div_pos; lia).
  assert (Hup : Zpos m / 2 ^ n < 2 ^ 53).
  { apply Z.div_lt_upper_bound; [lia|].
    rewrite <- Z.pow_add_r by lia.
    assert (2 ^ d <= 2 ^ (n + 53)) by (apply Z.pow_le_mono_r; lia). lia. }
  split; [lia|].
  intros Hnormal.
  assert (Hn' : n = d - 53) by lia.
  assert (2 ^ 52 <= Zpos m / 2 ^ n).
  { apply Z.div_le_lower_bound; [lia|].
    rewrite <- Z.pow_add_r by lia. rewrite Hn'.
    replace (d - 53 + 52) with (d - 1) by lia. lia. }
  lia.
Qed.

Lemma shr_exact (r : Z) (e : Z) (n : Z) :
  n <= 0 -> shr (Build_shr_record r false false) e n
            = (Build_shr_record r false false, e).
Proof. destruct n; [reflexivity | lia | reflexivity]. Qed.

Lemma binary_round_aux_spec (m : positive) (e : Z) :
  e <= fexp64 (Zpos (digits2_pos m) + e) ->
  binary_round_aux 53 1024 false (Zpos m) e loc_Exact
  = round_result (Zpos m) e.
Proof.
  intros He.
  pose proof (rne_mantissa m e He) as [Hr Hnormal].
  unfold round_result. cbn [Zdigits2]. unfold fexp64 in *.
  set (e' := fexp 53 1024 (Zpos (digits2_pos m) + e)) in *.
  assert (Hmin : -1074 <= e') by (unfold e', fexp, emin; lia).
  unfold binary_round_aux, shr_fexp.
  cbn [Zdigits2 shr_record_of_loc]. fold e'.
  (* the first shift, and the rounding *)
  assert (Hfirst :
            let '(mrs, e1) := shr (Build_shr_record (Zpos m) false false) e (e' - e) in
            e1 = e'
            /\ round_nearest_even (shr_m mrs) (loc_of_shr_record mrs)
               = rne (Zpos m) (e' - e)).
  { destruct (e' - e) as [|p|p] eqn:Hn; [| |lia].
    - cbn [shr]. split; [lia|]. cbn [shr_m loc_of_shr_record round_nearest_even].
      symmetry. apply rne_0.
    - cbn [shr]. split; [lia|].
      apply shifted_rne; [lia|].
      apply (shifted_iter (Zpos m) p 0); [lia|]. apply shifted_start. lia. }
  destruct (shr _ e (e' - e)) as [mrs e1]. destruct Hfirst as [-> ->].
  set (r := rne (Zpos m) (e' - e)) in *.
  (* the second shift *)
  destruct (Z.eqb_spec r (2 ^ 53)) as [Htop|Hbelow].
  - rewrite Htop. change (Zdigits2 (2 ^ 53)) with 54.
    assert (He' : fexp 53 1024 (54 + e') - e' = 1) by (unfold fexp, emin; lia).
    rewrite He'. reflexivity.
  - assert (Hshift : fexp 53 1024 (Zdigits2 r + e') - e' <= 0).
    { destruct r as [|p|p]; [unfold fexp, emin; cbn; lia| |lia].
      cbn [Zdigits2].
      assert (Zpos (digits2_pos p) <= 53).
      { pose proof (digits_bounds p) as [Hlo _].
        destruct (Z.le_gt_cases (Zpos (digits2_pos p)) 53) as [|Hbig]; [assumption|].
        assert (2 ^ 53 <= 2 ^ (Zpos (digits2_pos p) - 1))
          by (apply Z.pow_le_mono_r; lia).
        lia. }
      unfold fexp, emin. lia. }
    rewrite (shr_exact r e' _ Hshift). cbn [shr_m].
    destruct r as [|p|p]; [reflexivity| |lia].
    reflexivity.
Qed.

(** ** Digits of a positive integer *)

Lemma Zdigits2_bounds (m : Z) :
  0 < m -> 2 ^ (Zdigits2 m - 1) <= m < 2 ^ Zdigits2 m.
Proof. destruct m as [|p|p]; try lia. intros _. apply digits_bounds. Qed.

Lemma Zdigits2_unique (m k : Z) :
  2 ^ (k - 1) <= m < 2 ^ k -> 0 < m -> Zdigits2 m = k.
Proof. destruct m as [|p|p]; try lia. intros H _. now apply digits_unique. Qed.

Lemma Zdigits2_pos (m : Z) : 0 < m -> 0 < Zdigits2 m.
Proof. destruct m; simpl; lia. Qed.

Lemma Zdigits2_shift (m k : Z) :
  0 < m -> 0 <= k -> Zdigits2 (m * 2 ^ k) = Zdigits2 m + k.
Proof.
  intros Hm Hk. pose proof (Zdigits2_bounds m Hm) as [Hlo Hhi].
  pose proof (Zdigits2_pos m Hm) as Hd.
  assert (Hp : 0 < 2 ^ k) by (apply Z.pow_pos_nonneg; lia).
  apply Zdigits2_unique; [|nia].
  replace (Zdigits2 m + k - 1) with ((Zdigits2 m - 1) + k) by lia.
  rewrite !Z.pow_add_r by lia. nia.
Qed.

Lemma Zdigits2_monotone (m m' : Z) :
  0 < m -> m <= m' -> Zdigits2 m <= Zdigits2 m'.
Proof.
  intros Hm Hle.
  pose proof (Zdigits2_bounds m Hm) as [Hlo _].
  pose proof (Zdigits2_bounds m' ltac:(lia)) as [_ Hhi].
  destruct (Z.le_gt_cases (Zdigits2 m) (Zdigits2 m')) as [|Hgt]; [assumption|].
  assert (2 ^ Zdigits2 m' <= 2 ^ (Zdigits2 m - 1)).
  { apply Z.pow_le_mono_r; [lia|]. lia. }
  lia.
Qed.

(** ** The result of rounding does not depend on the place of the point *)

Lemma round_result_shift (m e k : Z) :
  0 < m -> 0 <= k -> e <= fexp64 (Zdigits2 m + e) ->
  round_result (m * 2 ^ k) (e - k) = round_result m e.
Proof.
  intros Hm Hk He. unfold round_result.
  rewrite Zdigits2_shift by assumption.
  replace (Zdigits2 m + k + (e - k)) with (Zdigits2 m + e) by lia.
  set (e' := fexp64 (Zdigits2 m + e)) in *.
  replace (e' - (e - k)) with ((e' - e) + k) by lia.
  now rewrite rne_shift by lia.
Qed.

Lemma rne_mantissaZ (m e : Z) :
  0 < m ->
  let e' := fexp64 (Zdigits2 m + e) in
  e <= e' ->
  0 <= rne m (e' - e) <= 2 ^ 53
  /\ (-1074 < e' -> 2 ^ 52 <= rne m (e' - e)).
Proof.
  destruct m as [|p|p]; try lia. intros _. apply rne_mantissa.
Qed.

(** ** The order of the results *)

Lemma finite_or_inf_le (m1 m2 e1 e2 : Z) :
  0 <= m1 -> 0 <= m2 ->
  m1 = 0 \/ (0 < m2 /\ (e1 < e2 \/ (e1 = e2 /\ m1 <= m2))) ->
  double_le (finite_or_inf m1 e1) (finite_or_inf m2 e2).
Proof.
  unfold double_le. intros H1 H2 H.
  destruct m1 as [|p1|p1], m2 as [|p2|p2]; try (exfalso; lia).
  - reflexivity.
  - unfold finite_or_inf. destruct (e2 <=? 971); reflexivity.
  - destruct H as [H|[_ H]]; [discriminate|].
    unfold finite_or_inf.
    destruct (Z.leb_spec e1 971), (Z.leb_spec e2 971); try reflexivity;
      [|exfalso; lia].
    unfold SFleb, SFcompare.
    destruct (Z.compare_spec e1 e2) as [He|He|He]; try reflexivity;
      [|exfalso; lia].
    change (Pos.compare_cont Eq p1 p2) with (Pos.compare p1 p2).
    destruct (Pos.compare_spec p1 p2); try reflexivity. exfalso; lia.
Qed.

(** Rounding is monotone, for two mantissas at the same exponent. *)
Lemma round_result_monotone (m1 m2 e : Z) :
  0 < m1 -> m1 <= m2 -> e <= fexp64 (Zdigits2 m1 + e) ->
  double_le (round_result m1 e) (round_result m2 e).
Proof.
  intros Hm1 Hle He1.
  pose proof (Zdigits2_monotone m1 m2 Hm1 Hle) as Hd.
  assert (He2 : e <= fexp64 (Zdigits2 m2 + e)) by (rewrite fexp64_eq in *; lia).
  pose proof (rne_mantissaZ m1 e Hm1 He1) as [Hr1 Hn1].
  pose proof (rne_mantissaZ m2 e ltac:(lia) He2) as [Hr2 Hn2].
  unfold round_result.
  set (e1 := fexp64 (Zdigits2 m1 + e)) in *.
  set (e2 := fexp64 (Zdigits2 m2 + e)) in *.
  assert (He12 : e1 <= e2) by (unfold e1, e2; rewrite !fexp64_eq; lia).
  assert (Hmin : -1074 <= e1) by (unfold e1; rewrite fexp64_eq; lia).
  assert (Hsame : e1 = e2 -> rne m1 (e1 - e) <= rne m2 (e2 - e)).
  { intros <-. apply rne_monotone; lia. }
  set (r1 := rne m1 (e1 - e)) in *. set (r2 := rne m2 (e2 - e)) in *.
  assert (H52 : 2 ^ 52 = 4503599627370496) by reflexivity.
  assert (H53 : 2 ^ 53 = 9007199254740992) by reflexivity.
  destruct (Z.eqb_spec r1 (2 ^ 53)) as [Ht1|Hb1];
    destruct (Z.eqb_spec r2 (2 ^ 53)) as [Ht2|Hb2];
    apply finite_or_inf_le; lia.
Qed.

(** Rounding is monotone in the value [m * 2^e]. *)
Lemma round_result_le (m1 e1 m2 e2 : Z) :
  0 < m1 -> 0 < m2 ->
  e1 <= fexp64 (Zdigits2 m1 + e1) ->
  e2 <= fexp64 (Zdigits2 m2 + e2) ->
  m1 * 2 ^ (e1 - Z.min e1 e2) <= m2 * 2 ^ (e2 - Z.min e1 e2) ->
  double_le (round_result m1 e1) (round_result m2 e2).
Proof.
  intros Hm1 Hm2 He1 He2 Hle.
  set (c := Z.min e1 e2) in *.
  assert (Hp1 : 0 < 2 ^ (e1 - c)) by (apply Z.pow_pos_nonneg; lia).
  assert (Hp2 : 0 < 2 ^ (e2 - c)) by (apply Z.pow_pos_nonneg; lia).
  rewrite <- (round_result_shift m1 e1 (e1 - c)) by (assumption || lia).
  rewrite <- (round_result_shift m2 e2 (e2 - c)) by (assumption || lia).
  replace (e1 - (e1 - c)) with c by lia.
  replace (e2 - (e2 - c)) with c by lia.
  apply round_result_monotone; [nia | exact Hle |].
  rewrite Zdigits2_shift by lia. rewrite fexp64_eq in *. lia.
Qed.

(** ** Numbers that are not negative *)

Lemma finite_is_nonneg (x : double) : is_finite_nonneg x -> is_nonneg x.
Proof. destruct x as [[|]|[|]| |[|] m e]; simpl; auto. Qed.

Lemma bounded_spec (m : positive) (e : Z) :
  bounded 53 1024 m e = true <->
  fexp64 (Zpos (digits2_pos m) + e) = e /\ e <= 971.
Proof.
  unfold bounded, canonical_mantissa. rewrite andb_true_iff, Z.eqb_eq, Z.leb_le.
  unfold fexp64. reflexivity.
Qed.

Lemma double_le_rank (x y : double) :
  is_nonneg x -> is_nonneg y -> (double_le x y <-> rank_le (rank x) (rank y)).
Proof.
  unfold double_le, rank_le, SFleb.
  destruct x as [[|]|[|]| |[|] m1 e1]; try contradiction;
    destruct y as [[|]|[|]| |[|] m2 e2]; try contradiction;
    cbn [is_nonneg rank fst snd SFcompare]; intros Hx Hy;
    try (apply bounded_spec in Hx; rewrite fexp64_eq in Hx);
    try (apply bounded_spec in Hy; rewrite fexp64_eq in Hy);
    try (split; [intros _; lia | reflexivity]);
    try (split; [discriminate | intros; exfalso; lia]).
  destruct (Z.compare_spec e1 e2) as [He|He|He].
  - change (Pos.compare_cont Eq m1 m2) with (Pos.compare m1 m2).
    destruct (Pos.compare_spec m1 m2);
      (split; [intros; try discriminate; lia
              | intros; try reflexivity; exfalso; lia]).
  - split; [intros; lia | reflexivity].
  - split; [discriminate | intros; exfalso; lia].
Qed.

Lemma double_le_refl (x : double) : is_nonneg x -> double_le x x.
Proof. intros Hx. apply double_le_rank; auto. unfold rank_le. lia. Qed.

Lemma double_le_trans (x y z : double) :
  is_nonneg x -> is_nonneg y -> is_nonneg z ->
  double_le x y -> double_le y z -> double_le x z.
Proof.
  intros Hx Hy Hz Hxy Hyz.
  apply double_le_rank in Hxy; auto. apply double_le_rank in Hyz; auto.
  apply double_le_rank; auto. unfold rank_le in *. lia.
Qed.

(** ** The results of rounding are numbers *)

Lemma finite_or_inf_nonneg (r e : Z) :
  0 <= r -> (0 < r -> fexp64 (Zdigits2 r + e) = e) ->
  is_nonneg (finite_or_inf r e).
Proof.
  intros Hr Hcanon. destruct r as [|p|p]; [exact I| |lia].
  unfold finite_or_inf. destruct (Z.leb_spec e 971); [|exact I].
  cbn [is_nonneg]. apply bounded_spec. split; [|assumption].
  apply (Hcanon ltac:(lia)).
Qed.

Lemma round_result_nonneg (m e : Z) :
  0 < m -> e <= fexp64 (Zdigits2 m + e) -> is_nonneg (round_result m e).
Proof.
  intros Hm He.
  pose proof (rne_mantissaZ m e Hm He) as [Hr Hnormal].
  unfold round_result.
  set (e' := fexp64 (Zdigits2 m + e)) in *.
  assert (Hmin : -1074 <= e') by (unfold e'; rewrite fexp64_eq; lia).
  set (r := rne m (e' - e)) in *.
  assert (H52 : 2 ^ 52 = 4503599627370496) by reflexivity.
  assert (H53 : 2 ^ 53 = 9007199254740992) by reflexivity.
  destruct (Z.eqb_spec r (2 ^ 53)) as [Htop|Hbelow];
    apply finite_or_inf_nonneg; try lia.
  - intros _. rewrite fexp64_eq. change (Zdigits2 (2 ^ 52)) with 53. lia.
  - intros Hpos. rewrite fexp64_eq.
    pose proof (Zdigits2_bounds r Hpos) as [Hlo Hhi].
    pose proof (Zdigits2_pos r Hpos) as Hd.
    assert (Hd53 : Zdigits2 r <= 53).
    { destruct (Z.le_gt_cases (Zdigits2 r) 53) as [|Hbig]; [assumption|].
      assert (2 ^ 53 <= 2 ^ (Zdigits2 r - 1)) by (apply Z.pow_le_mono_r; lia).
      lia. }
    destruct (Z.eq_dec e' (-1074)) as [Hsub|Hnorm]; [lia|].
    assert (Hfull : 2 ^ 52 <= r) by (apply Hnormal; lia).
    assert (Zdigits2 r = 53); [|lia].
    destruct (Z.le_gt_cases 53 (Zdigits2 r)) as [|Hsmall]; [lia|].
    assert (2 ^ Zdigits2 r <= 2 ^ 52) by (apply Z.pow_le_mono_r; lia).
    lia.
Qed.

(** A number in its place is not changed by rounding. *)
Lemma round_result_canonical (m : positive) (e : Z) :
  bounded 53 1024 m e = true ->
  round_result (Zpos m) e = S754_finite false m e.
Proof.
  intros Hb. apply bounded_spec in Hb. destruct Hb as [Hcanon Hmax].
  unfold round_result. cbn [Zdigits2]. rewrite Hcanon, Z.sub_diag, rne_0.
  pose proof (digits_bounds m) as [_ Hhi].
  rewrite fexp64_eq in Hcanon.
  assert (Zpos m < 2 ^ 53).
  { assert (2 ^ Zpos (digits2_pos m) <= 2 ^ 53)
      by (apply Z.pow_le_mono_r; lia).
    lia. }
  destruct (Z.eqb_spec (Zpos m) (2 ^ 53)); [lia|].
  unfold finite_or_inf. destruct (Z.leb_spec e 971); [reflexivity | lia].
Qed.

Lemma bounded_in_place (m : positive) (e : Z) :
  bounded 53 1024 m e = true -> e <= fexp64 (Zdigits2 (Zpos m) + e).
Proof. intros Hb. apply bounded_spec in Hb. cbn [Zdigits2]. lia. Qed.

(** The order of two numbers in their places, as an inequality of
    integers. *)
Lemma rank_le_aligned (m1 m2 : positive) (e1 e2 : Z) :
  bounded 53 1024 m1 e1 = true -> bounded 53 1024 m2 e2 = true ->
  (rank_le (e1, Zpos m1) (e2, Zpos m2) <->
   Zpos m1 * 2 ^ (e1 - Z.min e1 e2) <= Zpos m2 * 2 ^ (e2 - Z.min e1 e2)).
Proof.
  intros H1 H2. apply bounded_spec in H1, H2.
  destruct H1 as [Hc1 _], H2 as [Hc2 _]. rewrite fexp64_eq in *.
  pose proof (digits_bounds m1) as [Hlo1 Hhi1].
  pose proof (digits_bounds m2) as [Hlo2 Hhi2].
  set (d1 := Zpos (digits2_pos m1)) in *.
  set (d2 := Zpos (digits2_pos m2)) in *.
  assert (Hd1 : 0 < d1) by (unfold d1; lia).
  assert (Hd2 : 0 < d2) by (unfold d2; lia).
  assert (H52 : 2 ^ 52 = 4503599627370496) by reflexivity.
  assert (H53 : 2 ^ 53 = 9007199254740992) by reflexivity.
  assert (Hm1 : Zpos m1 < 2 ^ 53).
  { assert (2 ^ d1 <= 2 ^ 53) by (apply Z.pow_le_mono_r; lia). lia. }
  assert (Hm2 : Zpos m2 < 2 ^ 53).
  { assert (2 ^ d2 <= 2 ^ 53) by (apply Z.pow_le_mono_r; lia). lia. }
  unfold rank_le. cbn [fst snd].
  destruct (Z.lt_trichotomy e1 e2) as [Hlt|[Heq|Hgt]].
  - rewrite Z.min_l by lia. rewrite Z.sub_diag. change (2 ^ 0) with 1.
    assert (Hfull : 2 ^ 52 <= Zpos m2).
    { assert (d2 = 53) by lia.
      replace 52 with (d2 - 1) by lia. exact Hlo2. }
    assert (Hp : 2 <= 2 ^ (e2 - e1)).
    { change 2 with (2 ^ 1) at 1. apply Z.pow_le_mono_r; lia. }
    split; [intros _; nia | intros _; lia].
  - subst e2. rewrite Z.min_id, Z.sub_diag. change (2 ^ 0) with 1. lia.
  - rewrite Z.min_r by lia. rewrite Z.sub_diag. change (2 ^ 0) with 1.
    assert (Hfull : 2 ^ 52 <= Zpos m1).
    { assert (d1 = 53) by lia.
      replace 52 with (d1 - 1) by lia. exact Hlo1. }
    assert (Hp : 2 <= 2 ^ (e1 - e2)).
    { change 2 with (2 ^ 1) at 1. apply Z.pow_le_mono_r; lia. }
    split; [intros; exfalso; lia | intros; exfalso; nia].
Qed.

(** ** Multiplication *)

Lemma product_in_place (mx my : positive) (ex ey : Z) :
  bounded 53 1024 mx ex = true -> bounded 53 1024 my ey = true ->
  ex + ey <= fexp64 (Zdigits2 (Zpos (mx * my)) + (ex + ey)).
Proof.
  intros Hx Hy. apply bounded_spec in Hx, Hy.
  destruct Hx as [Hcx _], Hy as [Hcy _]. rewrite fexp64_eq in *.
  pose proof (digits_bounds mx) as [Hlox _].
  pose proof (digits_bounds my) as [Hloy _].
  pose proof (digits_bounds (mx * my)) as [_ Hhi].
  cbn [Zdigits2].
  set (dx := Zpos (digits2_pos mx)) in *.
  set (dy := Zpos (digits2_pos my)) in *.
  set (d := Zpos (digits2_pos (mx * my))) in *.
  assert (Hdx : 0 < dx) by (unfold dx; lia).
  assert (Hdy : 0 < dy) by (unfold dy; lia).
  assert (Hd : dx + dy - 1 <= d).
  { destruct (Z.le_gt_cases (dx + dy - 1) d) as [|Hsmall]; [assumption|].
    exfalso.
    assert (Hpow : 2 ^ d <= 2 ^ ((dx - 1) + (dy - 1)))
      by (apply Z.pow_le_mono_r; lia).
    rewrite Z.pow_add_r in Hpow by lia.
    rewrite Pos2Z.inj_mul in Hhi. nia. }
  lia.
Qed.

Lemma double_mul_finite (mx my : positive) (ex ey : Z) :
  bounded 53 1024 mx ex = true -> bounded 53 1024 my ey = true ->
  double_mul (S754_finite false mx ex) (S754_finite false my ey)
  = round_result (Zpos (mx * my)) (ex + ey).
Proof.
  intros Hx Hy. unfold double_mul. cbn [SFmul xorb].
  apply binary_round_aux_spec. now apply product_in_place.
Qed.

Lemma double_mul_nonneg (x y : double) :
  is_finite_nonneg x -> is_finite_nonneg y -> is_nonneg (double_mul x y).
Proof.
  destruct x as [[|]|[|]| |[|] mx ex]; try contradiction;
    destruct y as [[|]|[|]| |[|] my ey]; try contradiction;
    cbn [is_finite_nonneg]; intros Hx Hy; try exact I.
  rewrite double_mul_finite by assumption.
  apply round_result_nonneg; [lia|]. now apply product_in_place.
Qed.

Lemma zero_le (z : double) : is_nonneg z -> double_le (S754_zero false) z.
Proof.
  intros Hz. apply double_le_rank; [exact I | exact Hz |].
  unfold rank_le.
  destruct z as [[|]|[|]| |[|] m e]; try contradiction; cbn [rank fst snd];
    try lia.
  cbn [is_nonneg] in Hz. apply bounded_spec in Hz. rewrite fexp64_eq in Hz. lia.
Qed.

Lemma le_zero (m : positive) (e : Z) :
  bounded 53 1024 m e = true ->
  ~ double_le (S754_finite false m e) (S754_zero false).
Proof. intros _ H. discriminate H. Qed.

(** The product does not decrease when a factor grows. *)
Lemma double_mul_monotone (x y y' : double) :
  is_finite_nonneg x -> is_finite_nonneg y -> is_finite_nonneg y' ->
  double_le y y' -> double_le (double_mul x y) (double_mul x y').
Proof.
  intros Hx Hy Hy' Hle.
  pose proof (double_mul_nonneg x y' Hx Hy') as Hxy'.
  destruct x as [[|]|[|]| |[|] mx ex]; try contradiction.
  { (* zero times anything *)
    destruct y as [[|]|[|]| |[|] my ey]; try contradiction;
      destruct y' as [[|]|[|]| |[|] my' ey']; try contradiction; reflexivity. }
  destruct y as [[|]|[|]| |[|] my ey]; try contradiction.
  { (* anything times zero *) now apply zero_le. }
  destruct y' as [[|]|[|]| |[|] my' ey']; try contradiction.
  { now apply le_zero in Hle. }
  cbn [is_finite_nonneg] in Hx, Hy, Hy'.
  rewrite !double_mul_finite by assumption.
  apply double_le_rank in Hle; [|exact Hy|exact Hy']. cbn [rank] in Hle.
  apply (rank_le_aligned my my' ey ey' Hy Hy') in Hle.
  apply round_result_le; try lia; try now apply product_in_place.
  replace (Z.min (ex + ey) (ex + ey')) with (ex + Z.min ey ey') by lia.
  replace (ex + ey - (ex + Z.min ey ey')) with (ey - Z.min ey ey') by lia.
  replace (ex + ey' - (ex + Z.min ey ey')) with (ey' - Z.min ey ey') by lia.
  rewrite !Pos2Z.inj_mul. nia.
Qed.

Lemma double_mul_comm (x y : double) :
  is_finite_nonneg x -> is_finite_nonneg y ->
  double_mul x y = double_mul y x.
Proof.
  destruct x as [[|]|[|]| |[|] mx ex]; try contradiction;
    destruct y as [[|]|[|]| |[|] my ey]; try contradiction;
    intros _ _; try reflexivity.
  unfold double_mul. cbn [SFmul xorb].
  now rewrite Pos.mul_comm, Z.add_comm.
Qed.

Lemma double_mul_one (x : double) :
  is_finite_nonneg x -> double_mul x double_one = x.
Proof.
  destruct x as [[|]|[|]| |[|] m e]; try contradiction; [reflexivity|].
  cbn [is_finite_nonneg]. intros Hx.
  change double_one with (S754_finite false 4503599627370496 (-52)).
  rewrite double_mul_finite by (assumption || reflexivity).
  rewrite Pos2Z.inj_mul.
  change (Zpos 4503599627370496) with (2 ^ 52).
  replace (e + -52) with (e - 52) by lia.
  rewrite round_result_shift; [|lia|lia|now apply bounded_in_place].
  now apply round_result_canonical.
Qed.

(** ** Addition *)

Lemma iter_xO (m d : positive) :
  Zpos (Pos.iter xO m d) = Zpos m * 2 ^ Zpos d.
Proof.
  induction d as [|d IH] using Pos.peano_ind.
  - cbn [Pos.iter]. rewrite Pos2Z.inj_xO. change (2 ^ 1) with 2. lia.
  - rewrite Pos.iter_succ, Pos2Z.inj_succ, Z.pow_succ_r by lia.
    rewrite Pos2Z.inj_xO, IH. lia.
Qed.

Lemma shl_align_spec (m : positive) (e e' : Z) :
  e' <= e -> Zpos (fst (shl_align m e e')) = Zpos m * 2 ^ (e - e').
Proof.
  intros He. unfold shl_align.
  destruct (e' - e) as [|d|d] eqn:Hd; [| lia |].
  - replace (e - e') with 0 by lia. cbn [fst]. change (2 ^ 0) with 1. lia.
  - cbn [fst]. rewrite iter_xO. f_equal. f_equal. lia.
Qed.

Lemma shl_align_id (m : positive) (e e' : Z) :
  e <= e' -> shl_align m e e' = (m, e).
Proof.
  intros He. unfold shl_align. destruct (e' - e) eqn:Hd; try reflexivity. lia.
Qed.

Lemma sum_in_place (mx my : positive) (ex ey : Z) :
  bounded 53 1024 mx ex = true -> bounded 53 1024 my ey = true ->
  0 < aligned_sum mx my ex ey
  /\ Z.min ex ey
     <= fexp64 (Zdigits2 (aligned_sum mx my ex ey) + Z.min ex ey).
Proof.
  intros Hx Hy. unfold aligned_sum.
  set (c := Z.min ex ey).
  assert (Hpx : 0 < 2 ^ (ex - c)) by (apply Z.pow_pos_nonneg; lia).
  assert (Hpy : 0 < 2 ^ (ey - c)) by (apply Z.pow_pos_nonneg; lia).
  split; [nia|].
  apply bounded_in_place in Hx, Hy. cbn [Zdigits2] in Hx, Hy.
  rewrite fexp64_eq in *.
  destruct (Z.le_ge_cases ex ey) as [Hxy|Hyx].
  - assert (Hc : c = ex) by lia. rewrite Hc in *.
    rewrite Z.sub_diag in *. change (2 ^ 0) with 1 in *.
    pose proof (Zdigits2_monotone (Zpos mx)
                  (Zpos mx * 1 + Zpos my * 2 ^ (ey - ex)) ltac:(lia) ltac:(nia)).
    cbn [Zdigits2] in *. lia.
  - assert (Hc : c = ey) by lia. rewrite Hc in *.
    rewrite Z.sub_diag in *. change (2 ^ 0) with 1 in *.
    pose proof (Zdigits2_monotone (Zpos my)
                  (Zpos mx * 2 ^ (ex - ey) + Zpos my * 1) ltac:(lia) ltac:(nia)).
    cbn [Zdigits2] in *. lia.
Qed.

Lemma double_add_finite (mx my : positive) (ex ey : Z) :
  bounded 53 1024 mx ex = true -> bounded 53 1024 my ey = true ->
  double_add (S754_finite false mx ex) (S754_finite false my ey)
  = round_result (aligned_sum mx my ex ey) (Z.min ex ey).
Proof.
  intros Hx Hy.
  destruct (sum_in_place mx my ex ey Hx Hy) as [Hpos Hplace].
  unfold double_add. cbn [SFadd cond_Zopp].
  rewrite !shl_align_spec by lia. fold (aligned_sum mx my ex ey).
  destruct (aligned_sum mx my ex ey) as [|s|s] eqn:Hs; try lia.
  cbn [binary_normalize]. unfold binary_round.
  cbn [Zdigits2] in Hplace. unfold fexp64 in Hplace.
  rewrite shl_align_id by exact Hplace.
  apply binary_round_aux_spec. exact Hplace.
Qed.

Lemma double_add_zero_l (y : double) :
  is_finite_nonneg y -> double_add (S754_zero false) y = y.
Proof. destruct y as [[|]|[|]| |[|] m e]; try contradiction; reflexivity. Qed.

Lemma double_add_zero_r (x : double) :
  is_finite_nonneg x -> double_add x (S754_zero false) = x.
Proof. destruct x as [[|]|[|]| |[|] m e]; try contradiction; reflexivity. Qed.

Lemma double_add_nonneg (x y : double) :
  is_finite_nonneg x -> is_finite_nonneg y -> is_nonneg (double_add x y).
Proof.
  intros Hx Hy.
  destruct x as [[|]|[|]| |[|] mx ex]; try contradiction.
  { rewrite double_add_zero_l by assumption. now apply finite_is_nonneg. }
  destruct y as [[|]|[|]| |[|] my ey]; try contradiction.
  { exact Hx. }
  cbn [is_finite_nonneg] in Hx, Hy.
  rewrite double_add_finite by assumption.
  destruct (sum_in_place mx my ex ey Hx Hy) as [Hpos Hplace].
  now apply round_result_nonneg.
Qed.

Lemma aligned_sum_at (mx my : positive) (ex ey c : Z) :
  c <= Z.min ex ey ->
  aligned_sum mx my ex ey * 2 ^ (Z.min ex ey - c)
  = Zpos mx * 2 ^ (ex - c) + Zpos my * 2 ^ (ey - c).
Proof.
  intros Hc. unfold aligned_sum. set (z := Z.min ex ey) in *.
  replace (ex - c) with ((ex - z) + (z - c)) by lia.
  replace (ey - c) with ((ey - z) + (z - c)) by lia.
  rewrite !Z.pow_add_r by lia. lia.
Qed.

(** The sum does not decrease when a term grows. *)
Lemma double_add_monotone (x y y' : double) :
  is_finite_nonneg x -> is_finite_nonneg y -> is_finite_nonneg y' ->
  double_le y y' -> double_le (double_add x y) (double_add x y').
Proof.
  intros Hx Hy Hy' Hle.
  destruct x as [[|]|[|]| |[|] mx ex]; try contradiction.
  { now rewrite !double_add_zero_l by assumption. }
  destruct y' as [[|]|[|]| |[|] my' ey']; try contradiction.
  { destruct y as [[|]|[|]| |[|] my ey]; try contradiction.
    - apply double_le_refl. exact Hx.
    - now apply le_zero in Hle. }
  cbn [is_finite_nonneg] in Hx, Hy'.
  destruct (sum_in_place mx my' ex ey' Hx Hy') as [Hpos' Hplace'].
  rewrite (double_add_finite mx my' ex ey') by assumption.
  destruct y as [[|]|[|]| |[|] my ey]; try contradiction.
  - (* the number itself against a sum *)
    cbn [double_add SFadd]. rewrite <- (round_result_canonical mx ex Hx).
    apply round_result_le; try lia; try assumption.
    + now apply bounded_in_place.
    + replace (Z.min ex (Z.min ex ey')) with (Z.min ex ey') by lia.
      rewrite Z.sub_diag. change (2 ^ 0) with 1. unfold aligned_sum.
      assert (0 < 2 ^ (ey' - Z.min ex ey')) by (apply Z.pow_pos_nonneg; lia).
      nia.
  - cbn [is_finite_nonneg] in Hy.
    destruct (sum_in_place mx my ex ey Hx Hy) as [Hpos Hplace].
    rewrite (double_add_finite mx my ex ey) by assumption.
    apply double_le_rank in Hle; [|exact Hy|exact Hy']. cbn [rank] in Hle.
    apply (rank_le_aligned my my' ey ey' Hy Hy') in Hle.
    apply round_result_le; try assumption.
    set (c := Z.min (Z.min ex ey) (Z.min ex ey')).
    rewrite !aligned_sum_at by lia.
    apply Z.add_le_mono_l.
    replace (ey - c) with ((ey - Z.min ey ey') + (Z.min ey ey' - c)) by lia.
    replace (ey' - c) with ((ey' - Z.min ey ey') + (Z.min ey ey' - c)) by lia.
    rewrite !Z.pow_add_r by lia.
    assert (0 < 2 ^ (Z.min ey ey' - c)) by (apply Z.pow_pos_nonneg; lia).
    nia.
Qed.

(** ** The order is total on numbers *)

Lemma double_le_total (x y : double) :
  is_nonneg x -> is_nonneg y -> double_le x y \/ double_le y x.
Proof.
  intros Hx Hy.
  destruct (Z.lt_trichotomy (fst (rank x)) (fst (rank y))) as [H|[H|H]];
    [left|destruct (Z.le_ge_cases (snd (rank x)) (snd (rank y))); [left|right]
    |right];
    apply double_le_rank; auto; unfold rank_le; lia.
Qed.

Lemma le_finite (x y : double) :
  is_nonneg x -> is_finite_nonneg y -> double_le x y -> is_finite_nonneg x.
Proof.
  intros Hx Hy Hle.
  destruct x as [[|]|[|]| |[|] m e]; try contradiction; try exact I;
    [|exact Hx].
  destruct y as [[|]|[|]| |[|] m' e']; try contradiction; discriminate Hle.
Qed.

(** ** Math.min *)

Lemma Math_min_cases (x y : double) :
  is_nonneg x -> is_nonneg y ->
  (Math_min x y = x /\ double_le x y) \/ (Math_min x y = y /\ double_le y x).
Proof.
  intros Hx Hy. unfold Math_min.
  destruct (SFcompare x y) as [[| |]|] eqn:Hcmp.
  - right. split.
    + destruct x as [[|]|[|]| |[|] m e]; try contradiction; reflexivity.
    + destruct (double_le_total x y Hx Hy) as [H|H]; [|exact H].
      (* equal keys *)
      apply double_le_rank; auto.
      apply double_le_rank in H; auto. unfold rank_le in *.
      destruct x as [[|]|[|]| |[|] m e]; try contradiction;
        destruct y as [[|]|[|]| |[|] m' e']; try contradiction;
        cbn [rank fst snd SFcompare] in *; try discriminate; try lia.
      destruct (Z.compare_spec e e'); try discriminate.
      change (Pos.compare_cont Eq m m') with (Pos.compare m m') in Hcmp.
      destruct (Pos.compare_spec m m'); try discriminate. lia.
  - left. split; [reflexivity|]. unfold double_le, SFleb. now rewrite Hcmp.
  - right. split; [reflexivity|].
    destruct (double_le_total x y Hx Hy) as [H|H]; [|exact H].
    unfold double_le, SFleb in H. rewrite Hcmp in H. discriminate H.
  - destruct x as [[|]|[|]| |[|] m e]; try contradiction;
      destruct y as [[|]|[|]| |[|] m' e']; try contradiction;
      discriminate Hcmp.
Qed.


Lemma Math_min_finite (x y : double) :
  is_nonneg x -> is_finite_nonneg y -> is_finite_nonneg (Math_min x y).
Proof.
  intros Hx Hy.
  destruct (Math_min_cases x y Hx (finite_is_nonneg y Hy)) as [[-> H]|[-> H]];
    [now apply (le_finite x y) | exact Hy].
Qed.


(** ** Whole numbers and Math.floor *)

Lemma shl_align_snd (m : positive) (e e' : Z) :
  e' <= e -> snd (shl_align m e e') = e'.
Proof.
  intros He. unfold shl_align.
  destruct (e' - e) as [|d|d] eqn:Hd; cbn [snd]; lia.
Qed.

(** A whole number below [2^53] is a double: its mantissa is the number
    moved up to 53 digits. *)
Lemma double_of_Z_small (z : Z) :
  0 < z < 2 ^ 53 ->
  let k := 53 - Zdigits2 z in
  0 <= k
  /\ - k <= fexp64 (Zdigits2 (z * 2 ^ k) + - k)
  /\ double_of_Z z = round_result (z * 2 ^ k) (- k).
Proof.
  intros [Hpos Hsmall] k.
  pose proof (Zdigits2_bounds z Hpos) as [Hlo Hhi].
  pose proof (Zdigits2_pos z Hpos) as Hd.
  assert (Hk : 0 <= k).
  { unfold k. destruct (Z.le_gt_cases (Zdigits2 z) 53) as [|Hbig]; [lia|].
    assert (2 ^ 53 <= 2 ^ (Zdigits2 z - 1)) by (apply Z.pow_le_mono_r; lia).
    lia. }
  split; [exact Hk|].
  assert (Hplace : - k <= fexp64 (Zdigits2 (z * 2 ^ k) + - k)).
  { rewrite Zdigits2_shift by lia. rewrite fexp64_eq. lia. }
  split; [exact Hplace|].
  destruct z as [|p|p]; try lia.
  unfold double_of_Z, double_of. cbn [binary_normalize]. unfold binary_round.
  assert (He : fexp 53 1024 (Zpos (digits2_pos p) + 0) = - k).
  { unfold fexp, emin. cbn [Zdigits2] in k, Hd. unfold k. lia. }
  rewrite He.
  pose proof (shl_align_spec p 0 (- k) ltac:(lia)) as Hfst.
  pose proof (shl_align_snd p 0 (- k) ltac:(lia)) as Hsnd.
  destruct (shl_align p 0 (- k)) as [mz ez]. cbn [fst snd] in Hfst, Hsnd.
  subst ez. replace (0 - - k) with k in Hfst by lia.
  rewrite <- Hfst in *.
  apply binary_round_aux_spec. exact Hplace.
Qed.

Lemma Math_floor_nonneg (x : double) :
  is_finite_nonneg x -> is_nonneg (Math_floor x).
Proof.
  destruct x as [[|]|[|]| |[|] m e]; try contradiction; [exact (fun H => H)|].
  cbn [is_finite_nonneg Math_floor cond_Zopp]. intros Hx.
  destruct (Z.ltb_spec e 0) as [Hneg|Hpos]; [|exact Hx].
  rewrite Z.shiftr_div_pow2 by lia.
  set (z := Zpos m / 2 ^ (- e)).
  assert (Hp : 0 < 2 ^ (- e)) by (apply Z.pow_pos_nonneg; lia).
  assert (Hz : 0 <= z) by (apply Z.div_pos; lia).
  destruct (Z.eq_dec z 0) as [->|Hnz]; [exact I|].
  assert (Hsmall : z < 2 ^ 53).
  { pose proof (proj1 (bounded_spec m e) Hx) as [Hc _].
    rewrite fexp64_eq in Hc. pose proof (digits_bounds m) as [_ Hhi].
    assert (2 ^ Zpos (digits2_pos m) <= 2 ^ 53)
      by (apply Z.pow_le_mono_r; lia).
    assert (z <= Zpos m); [|lia].
    unfold z. apply Z.div_le_upper_bound; nia. }
  destruct (double_of_Z_small z ltac:(lia)) as (Hk & Hplace & ->).
  apply round_result_nonneg; [|exact Hplace].
  assert (0 < 2 ^ (53 - Zdigits2 z)) by (apply Z.pow_pos_nonneg; lia). nia.
Qed.

(** Rounding down does not go up. *)
Lemma Math_floor_le (x : double) :
  is_finite_nonneg x -> double_le (Math_floor x) x.
Proof.
  intros Hfin. pose proof (Math_floor_nonneg x Hfin) as Hfloor.
  destruct x as [[|]|[|]| |[|] m e]; try contradiction; [reflexivity|].
  cbn [is_finite_nonneg] in Hfin. cbn [Math_floor cond_Zopp] in *.
  destruct (Z.ltb_spec e 0) as [Hneg|Hpos];
    [|apply double_le_refl; exact Hfin].
  rewrite Z.shiftr_div_pow2 in * by lia.
  set (z := Zpos m / 2 ^ (- e)) in *.
  assert (Hp : 0 < 2 ^ (- e)) by (apply Z.pow_pos_nonneg; lia).
  assert (Hz : 0 <= z) by (apply Z.div_pos; lia).
  assert (Hzm : z * 2 ^ (- e) <= Zpos m).
  { unfold z. rewrite Z.mul_comm. apply Z.mul_div_le. lia. }
  destruct (Z.eq_dec z 0) as [Hz0|Hnz].
  { rewrite Hz0. now apply zero_le. }
  assert (Hsmall : z < 2 ^ 53).
  { pose proof (proj1 (bounded_spec m e) Hfin) as [Hc _].
    rewrite fexp64_eq in Hc. pose proof (digits_bounds m) as [_ Hhi].
    assert (2 ^ Zpos (digits2_pos m) <= 2 ^ 53)
      by (apply Z.pow_le_mono_r; lia).
    nia. }
  destruct (double_of_Z_small z ltac:(lia)) as (Hk & Hplace & ->).
  set (k := 53 - Zdigits2 z) in *.
  assert (Hpk : 0 < 2 ^ k) by (apply Z.pow_pos_nonneg; lia).
  rewrite <- (round_result_canonical m e Hfin).
  apply round_result_le; try lia; try assumption; try nia.
  - now apply bounded_in_place.
  - set (c := Z.min (- k) e).
    (* z * 2^k * 2^(-k - c) = z * 2^(-c) = z * 2^(-e) * 2^(e - c) *)
    replace (z * 2 ^ k * 2 ^ (- k - c)) with (z * 2 ^ (- c)).
    2:{ rewrite <- Z.mul_assoc, <- Z.pow_add_r by lia. f_equal. f_equal. lia. }
    replace (- c) with ((- e) + (e - c)) by lia.
    rewrite Z.pow_add_r by lia.
    assert (0 < 2 ^ (e - c)) by (apply Z.pow_pos_nonneg; lia).
    nia.
Qed.

Lemma double_of_Z_monotone (z z' : Z) :
  0 <= z -> z <= z' -> z' < 2 ^ 53 ->
  double_le (double_of_Z z) (double_of_Z z').
Proof.
  intros Hz Hle Hsmall.
  destruct (Z.eq_dec z' 0) as [Hz0'|Hnz'].
  { assert (z = 0) by lia. subst. reflexivity. }
  destruct (double_of_Z_small z' ltac:(lia)) as (Hk' & Hplace' & Heq').
  assert (Hp' : 0 < 2 ^ (53 - Zdigits2 z')) by (apply Z.pow_pos_nonneg; lia).
  destruct (Z.eq_dec z 0) as [Hz0|Hnz].
  { rewrite Hz0, Heq'. apply zero_le. apply round_result_nonneg; [nia|].
    exact Hplace'. }
  destruct (double_of_Z_small z ltac:(lia)) as (Hk & Hplace & Heq).
  assert (Hp : 0 < 2 ^ (53 - Zdigits2 z)) by (apply Z.pow_pos_nonneg; lia).
  rewrite Heq, Heq'.
  set (k := 53 - Zdigits2 z) in *. set (k' := 53 - Zdigits2 z') in *.
  apply round_result_le; try assumption; try nia.
  set (c := Z.min (- k) (- k')).
  replace (z * 2 ^ k * 2 ^ (- k - c)) with (z * 2 ^ (- c)).
  2:{ rewrite <- Z.mul_assoc, <- Z.pow_add_r by lia. f_equal. f_equal. lia. }
  replace (z' * 2 ^ k' * 2 ^ (- k' - c)) with (z' * 2 ^ (- c)).
  2:{ rewrite <- Z.mul_assoc, <- Z.pow_add_r by lia. f_equal. f_equal. lia. }
  assert (0 < 2 ^ (- c)) by (apply Z.pow_pos_nonneg; lia). nia.
Qed.

(** Rounding down keeps the order. *)
Lemma Math_floor_monotone (x y : double) :
  is_finite_nonneg x -> is_finite_nonneg y -> double_le x y ->
  double_le (Math_floor x) (Math_floor y).
Proof.
  intros Hx Hy Hle.
  pose proof (Math_floor_nonneg x Hx) as Hfx.
  pose proof (Math_floor_nonneg y Hy) as Hfy.
  pose proof (Math_floor_le x Hx) as Hlx.
  destruct x as [[|]|[|]| |[|] m e]; try contradiction.
  { now apply zero_le. }
  destruct y as [[|]|[|]| |[|] m' e']; try contradiction.
  { now apply le_zero in Hle. }
  cbn [is_finite_nonneg] in Hx, Hy.
  pose proof Hle as Hkey. apply double_le_rank in Hkey; [|exact Hx|exact Hy].
  cbn [rank] in Hkey.
  pose proof (proj1 (rank_le_aligned m m' e e' Hx Hy) Hkey) as Haligned.
  unfold rank_le in Hkey. cbn [fst snd] in Hkey.
  destruct (Z.ltb_spec e' 0) as [Hneg'|Hpos'].
  2:{ (* the larger number is whole *)
    apply (double_le_trans _ (S754_finite false m e)); auto.
    replace (Math_floor (S754_finite false m' e'))
      with (S754_finite false m' e'); [exact Hle|].
    cbn [Math_floor]. destruct (Z.ltb_spec e' 0); [lia | reflexivity]. }
  assert (Hneg : e < 0) by lia.
  cbn [Math_floor cond_Zopp] in *.
  destruct (Z.ltb_spec e 0); [|lia]. destruct (Z.ltb_spec e' 0); [|lia].
  rewrite !Z.shiftr_div_pow2 by lia.
  set (c := Z.min e e') in *.
  assert (Hpc : 0 < 2 ^ (- c)) by (apply Z.pow_pos_nonneg; lia).
  assert (Hz : Zpos m / 2 ^ (- e) = (Zpos m * 2 ^ (e - c)) / 2 ^ (- c)).
  { replace (- c) with ((- e) + (e - c)) by lia.
    rewrite Z.pow_add_r by lia.
    rewrite Z.div_mul_cancel_r; [reflexivity| |];
      apply Z.neq_sym, Z.lt_neq, Z.pow_pos_nonneg; lia. }
  assert (Hz' : Zpos m' / 2 ^ (- e') = (Zpos m' * 2 ^ (e' - c)) / 2 ^ (- c)).
  { replace (- c) with ((- e') + (e' - c)) by lia.
    rewrite Z.pow_add_r by lia.
    rewrite Z.div_mul_cancel_r; [reflexivity| |];
      apply Z.neq_sym, Z.lt_neq, Z.pow_pos_nonneg; lia. }
  apply double_of_Z_monotone.
  - apply Z.div_pos; [lia|]. apply Z.pow_pos_nonneg; lia.
  - rewrite Hz, Hz'. apply Z.div_le_mono; [exact Hpc | exact Haligned].
  - pose proof (proj1 (bounded_spec m' e') Hy) as [Hc _].
    rewrite fexp64_eq in Hc. pose proof (digits_bounds m') as [_ Hhi].
    assert (2 ^ Zpos (digits2_pos m') <= 2 ^ 53)
      by (apply Z.pow_le_mono_r; lia).
    assert (Hp : 0 < 2 ^ (- e')) by (apply Z.pow_pos_nonneg; lia).
    assert (Zpos m' / 2 ^ (- e') <= Zpos m'); [|lia].
    apply Z.div_le_upper_bound; nia.
Qed.


(** ** calculateDelay *)

Lemma half_is_a_number : is_finite_nonneg half.
Proof. reflexivity. Qed.

Lemma double_one_is_a_number : is_finite_nonneg double_one.
Proof. reflexivity. Qed.

(** The factor of the jitter lies between one half and one. *)
Lemma jitter_factor_bounds (random : double) :
  is_finite_nonneg random -> double_le random double_one ->
  let factor := double_add half (double_mul random half) in
  is_finite_nonneg factor
  /\ double_le half factor /\ double_le factor double_one.
Proof.
  intros Hr Hr1 factor.
  pose proof half_is_a_number as Hhalf.
  pose proof double_one_is_a_number as Hone.
  assert (Ht : double_le (double_mul random half) half).
  { rewrite (double_mul_comm random half) by assumption.
    pose proof (double_mul_monotone half random double_one Hhalf Hr Hone Hr1)
      as Hle.
    now rewrite (double_mul_one half Hhalf) in Hle. }
  assert (Htn : is_nonneg (double_mul random half))
    by now apply double_mul_nonneg.
  assert (Htf : is_finite_nonneg (double_mul random half))
    by now apply (le_finite _ half).
  assert (Hlow : double_le half factor).
  { pose proof (double_add_monotone half (S754_zero false)
                  (double_mul random half) Hhalf I Htf (zero_le _ Htn))
      as Hle.
    now rewrite (double_add_zero_r half Hhalf) in Hle. }
  assert (Hhigh : double_le factor double_one).
  { change double_one with (double_add half half).
    now apply double_add_monotone. }
  split; [|split; assumption].
  apply (le_finite _ double_one); try assumption.
  now apply double_add_nonneg.
Qed.

Section Backoff.
Context {W : Type} `{Runtime W}.
Variable config : RetryConfig.

Lemma computedDelay_is_a_number (attempt : Z) :
  is_finite_nonneg (baseDelay config) ->
  is_finite_nonneg (maxDelay config) ->
  is_finite_nonneg
    (Math_pow (backoffMultiplier config) (double_of_Z (attempt - 1))) ->
  is_finite_nonneg (computedDelay config attempt).
Proof.
  intros Hbase Hmax Hp.
  apply Math_min_finite; [|exact Hmax]. now apply double_mul_nonneg.
Qed.

(** With jitter, the delay returned is [Math.floor] of a number between
    half the computed delay and the computed delay. *)
Lemma jittered_delay_bounds (attempt : Z) (w : W) :
  is_finite_nonneg (computedDelay config attempt) ->
  is_finite_nonneg (fst (mathRandom w)) ->
  double_le (fst (mathRandom w)) double_one ->
  jitter config = true ->
  exists jittered,
    fst (calculateDelay config attempt w) = Math_floor jittered
    /\ double_le (double_mul (computedDelay config attempt) half) jittered
    /\ double_le jittered (computedDelay config attempt)
    /\ double_le (Math_floor (double_mul (computedDelay config attempt) half))
         (Math_floor jittered)
    /\ double_le (Math_floor jittered) (computedDelay config attempt).
Proof.
  intros Hcomputed Hr Hr1 Hon.
  pose proof half_is_a_number as Hhalf.
  pose proof double_one_is_a_number as Hone.
  destruct (jitter_factor_bounds (fst (mathRandom w)) Hr Hr1)
    as (Hfactor & Hlow & Hhigh).
  set (factor := double_add half (double_mul (fst (mathRandom w)) half)) in *.
  set (jittered := double_mul (computedDelay config attempt) factor).
  assert (Hjn : is_nonneg jittered) by now apply double_mul_nonneg.
  assert (Hj1 : double_le (double_mul (computedDelay config attempt) half)
                  jittered)
    by now apply double_mul_monotone.
  assert (Hj2 : double_le jittered (computedDelay config attempt)).
  { pose proof (double_mul_monotone (computedDelay config attempt) factor
                  double_one Hcomputed Hfactor Hone Hhigh) as Hle.
    now rewrite (double_mul_one _ Hcomputed) in Hle. }
  assert (Hjf : is_finite_nonneg jittered)
    by now apply (le_finite _ _ Hjn Hcomputed).
  exists jittered. split.
  { unfold calculateDelay, jittered, factor. rewrite Hon.
    now destruct (mathRandom w). }
  split; [exact Hj1|]. split; [exact Hj2|]. split.
  - apply Math_floor_monotone; try assumption.
    apply (le_finite _ jittered); try assumption.
    now apply double_mul_nonneg.
  - apply (double_le_trans _ jittered); try assumption.
    + now apply Math_floor_nonneg.
    + now apply finite_is_nonneg.
    + now apply Math_floor_le.
Qed.


(** X8.  With jitter, whenever half the computed delay is a whole number,
    the delay returned lies between half the computed delay and the
    computed delay. *)
Theorem jittered_delay_within_half_when_half_is_whole
    (attempt : Z) (w : W) :
  is_finite_nonneg (baseDelay config) ->
  is_finite_nonneg (maxDelay config) ->
  is_finite_nonneg
    (Math_pow (backoffMultiplier config) (double_of_Z (attempt - 1))) ->
  is_finite_nonneg (fst (mathRandom w)) ->
  double_le (fst (mathRandom w)) double_one ->
  jitter config = true ->
  Math_floor (double_mul (computedDelay config attempt) half)
  = double_mul (computedDelay config attempt) half ->
  double_le (double_mul (computedDelay config attempt) half)
    (fst (calculateDelay config attempt w))
  /\ double_le (fst (calculateDelay config attempt w))
       (computedDelay config attempt).
Proof.
  intros Hbase Hmax Hp Hr Hr1 Hon Hwhole.
  pose proof (computedDelay_is_a_number attempt Hbase Hmax Hp) as Hcomputed.
  destruct (jittered_delay_bounds attempt w Hcomputed Hr Hr1 Hon)
    as (jittered & -> & _ & _ & Hdown & Hup).
  rewrite Hwhole in Hdown. now split.
Qed.
End Backoff.

(** X9.  For the two configurations that the repository uses, at every
    attempt of the loop and for [Math.random()] between 0 and 1: if
    [Math.pow] is exact on the power of two it is asked for, the computed
    delay is [1000 * 2^(attempt - 1)] ms and the delay returned lies
    between half the computed delay and the computed delay. *)
Theorem shipped_configurations_keep_the_jitter_bounds
    {W : Type} `{Runtime W} (config : RetryConfig) (attempt : Z) (w : W) :
  config = defaultConfig \/ config = retryManagerConfig ->
  1 <= attempt <= maxAttempts config ->
  Math_pow (double_of_Z 2) (double_of_Z (attempt - 1))
  = double_of_Z (2 ^ (attempt - 1)) ->
  is_finite_nonneg (fst (mathRandom w)) ->
  double_le (fst (mathRandom w)) double_one ->
  computedDelay config attempt = double_of_Z (1000 * 2 ^ (attempt - 1))
  /\ double_le (double_mul (computedDelay config attempt) half)
       (fst (calculateDelay config attempt w))
  /\ double_le (fst (calculateDelay config attempt w))
       (computedDelay config attempt).
Proof.
  intros Hconfig Hattempt Hpow Hr Hr1.
  assert (Hcomputed : computedDelay config attempt
                      = double_of_Z (1000 * 2 ^ (attempt - 1))
                      /\ jitter config = true).
  { destruct Hconfig as [-> | ->]; cbn [maxAttempts defaultConfig
      retryManagerConfig] in Hattempt;
      assert (Hcases : attempt = 1 \/ attempt = 2 \/ attempt = 3) by lia;
      destruct Hcases as [-> | [-> | ->]];
      unfold computedDelay;
      cbn [baseDelay maxDelay backoffMultiplier defaultConfig
             retryManagerConfig];
      rewrite Hpow; split; reflexivity. }
  destruct Hcomputed as [Hcomputed Hon].
  split; [exact Hcomputed|].
  assert (Hnumber : is_finite_nonneg (computedDelay config attempt)
                    /\ Math_floor (double_mul (computedDelay config attempt)
                                     half)
                       = double_mul (computedDelay config attempt) half).
  { rewrite Hcomputed.
    assert (Hcases : attempt = 1 \/ attempt = 2 \/ attempt = 3)
      by (destruct Hconfig as [-> | ->]; cbn in Hattempt; lia).
    destruct Hcases as [-> | [-> | ->]]; split; reflexivity. }
  destruct Hnumber as [Hnumber Hwhole].
  destruct (jittered_delay_bounds config attempt w Hnumber Hr Hr1 Hon)
    as (jittered & -> & _ & _ & Hdown & Hup).
  rewrite Hwhole in Hdown. now split.
Qed.

(** Witness of X9: the second delay of the configuration of worker.ts. *)
Lemma shipped_configurations_witness :
  computedDelay retryManagerConfig 2 = double_of_Z 2000
  /\ double_le (double_mul (computedDelay retryManagerConfig 2) half)
       (fst (calculateDelay retryManagerConfig 2 (example_world 0)))
  /\ double_le (fst (calculateDelay retryManagerConfig 2 (example_world 0)))
       (computedDelay retryManagerConfig 2).
Proof.
  apply (shipped_configurations_keep_the_jitter_bounds retryManagerConfig 2
           (example_world 0)).
  - now right.
  - cbn [maxAttempts retryManagerConfig]. lia.
  - reflexivity.
  - reflexivity.
  - reflexivity.
Defined.

(** Witness of X8: the first delay of the default configuration, half of
    which is 500 ms. *)
Lemma jittered_delay_within_half_witness :
  double_mul (computedDelay defaultConfig 1) half = double_of_Z 500
  /\ double_le (double_mul (computedDelay defaultConfig 1) half)
       (fst (calculateDelay defaultConfig 1 (example_world 0)))
  /\ double_le (fst (calculateDelay defaultConfig 1 (example_world 0)))
       (computedDelay defaultConfig 1).
Proof.
  split; [reflexivity|].
  apply (jittered_delay_within_half_when_half_is_whole defaultConfig 1
           (example_world 0)); reflexivity.
Defined.



(** ** Examples of calculateDelay

    The arithmetic rounds as binary64 does: [100 * 1.2] is [120]; with
    [Math.random()] just below 1 the factor [0.5 + random * 0.5] rounds to
    1 and the delay is the computed one; with a computed delay of 1001 and
    [Math.random() = 2^-10] the delay is [Math.floor(500.98...)], below
    half of 1001; the first three delays of the default configuration with
    that value of [Math.random()]. *)

Lemma calculateDelay_examples :
  fst (calculateDelay slow_config 2 (example_world 0)) = double_of_Z 120
  /\ fst (calculateDelay defaultConfig 1
            {| clock := 0; random := below_one |}) = double_of_Z 1000
  /\ fst (calculateDelay odd_config 1 (example_world 0)) = double_of_Z 500
  /\ map (fun attempt =>
            fst (calculateDelay defaultConfig attempt (example_world 0)))
         [1; 2; 3]
     = [double_of_Z 500; double_of_Z 1000; double_of_Z 2001].
Proof. repeat split. Qed.

(** ** The batch scraper *)

Lemma firstn_cap {A : Type} (n : nat) (l : list A) :
  firstn n l = firstn (Nat.min n (List.length l)) l.
Proof.
  destruct (Nat.le_gt_cases n (List.length l)) as [Hle|Hgt].
  - now rewrite Nat.min_l.
  - rewrite Nat.min_r by lia. rewrite !firstn_all2; auto; lia.
Qed.

(** For a start inside the list and a positive size, [slice] cuts the
    window of that size (shorter at the end of the list). *)
Lemma slice_window {A : Type} (l : list A) (i size : Z) :
  0 <= i -> 1 <= size ->
  slice i (i + size) l = firstn (Z.to_nat size) (skipn (Z.to_nat i) l).
Proof.
  intros Hi Hsize. unfold slice.
  destruct (Z.ltb_spec i 0); [lia|].
  destruct (Z.ltb_spec (i + size) 0); [lia|].
  destruct (Z.le_gt_cases i (Z.of_nat (List.length l))) as [Hin|Hout].
  - rewrite (Z.min_l i) by lia.
    rewrite firstn_cap, (firstn_cap (Z.to_nat size)), !length_skipn.
    f_equal. lia.
  - rewrite !skipn_all2 by lia. now rewrite !firstn_nil.
Qed.








(** *** The calls of a window *)

Lemma first_pending_spec (tasks before after : list Task) (t : Task) :
  first_pending tasks = Some (before, t, after) ->
  tasks = (before ++ t :: after)%list /\ is_settled t = false.
Proof.
  revert before. induction tasks as [|t0 rest IH]; intros before;
    [discriminate|].
  simpl. destruct (is_settled t0) eqn:Hsettled.
  - destruct (first_pending rest) as [[[b t'] a]|]; [|discriminate].
    intros Heq. injection Heq as <- <- <-.
    destruct (IH b eq_refl) as [-> Hpending]. auto.
  - intros Heq. injection Heq as <- <- <-. auto.
Qed.

Lemma first_pending_none (tasks : list Task) :
  first_pending tasks = None -> Forall (fun t => is_settled t = true) tasks.
Proof.
  induction tasks as [|t0 rest IH]; [constructor|].
  simpl. destruct (is_settled t0) eqn:Hsettled; [|discriminate].
  destruct (first_pending rest) as [[[b t'] a]|]; [discriminate|].
  intros _. constructor; auto.
Qed.

Lemma split_at_spec (i : nat) (tasks before after : list Task) (t : Task) :
  split_at i tasks = Some (before, t, after) ->
  tasks = (before ++ t :: after)%list.
Proof.
  revert i before. induction tasks as [|t0 rest IH]; intros i before;
    [destruct i; discriminate|].
  destruct i as [|i]; simpl.
  - intros Heq. now injection Heq as <- <- <-.
  - destruct (split_at i rest) as [[[b t'] a]|] eqn:Hsplit; [|discriminate].
    intros Heq. injection Heq as <- <- <-.
    now rewrite (IH _ _ Hsplit).
Qed.

(** The call that the event loop resumes is one that has not settled. *)
Lemma pick_spec (choice : nat) (tasks before after : list Task) (t : Task) :
  pick choice tasks = Some (before, t, after) ->
  tasks = (before ++ t :: after)%list /\ is_settled t = false.
Proof.
  unfold pick.
  destruct (split_at _ tasks) as [[[b t'] a]|] eqn:Hsplit;
    [|apply first_pending_spec].
  destruct (is_settled t') eqn:Hsettled; [apply first_pending_spec|].
  intros Heq. injection Heq as <- <- <-.
  split; [now apply split_at_spec in Hsplit | exact Hsettled].
Qed.

(** It resumes one as long as there is one. *)
Lemma pick_none (choice : nat) (tasks : list Task) :
  pick choice tasks = None -> Forall (fun t => is_settled t = true) tasks.
Proof.
  unfold pick.
  destruct (split_at _ tasks) as [[[b t'] a]|]; [|apply first_pending_none].
  destruct (is_settled t'); [apply first_pending_none | discriminate].
Qed.

Lemma pending_steps_app (l l' : list Task) :
  pending_steps (l ++ l') = (pending_steps l + pending_steps l')%nat.
Proof. unfold pending_steps. now rewrite map_app, list_sum_app. Qed.

Lemma settled_results_all (tasks : list Task) :
  Forall (fun t => is_settled t = true) tasks ->
  map task_url tasks = map ScrapeResult.url (settled_results tasks)
  /\ flat_map settle_log tasks = map settled_event (settled_results tasks).
Proof.
  induction 1 as [|t rest Ht _ [IHurl IHlog]]; [auto|].
  destruct t; try discriminate Ht. simpl. now rewrite IHurl, IHlog.
Qed.

Lemma settled_results_with (P : ScrapeResult.t -> Prop) (tasks : list Task) :
  Forall (settled_with P) tasks -> Forall P (settled_results tasks).
Proof.
  induction 1 as [|t rest Ht _ IH]; [constructor|].
  destruct t; simpl; auto.
Qed.

Section ScraperFacts.
Context {W : Type} `{Runtime W}.
Variable maxConcurrent : Z.
Variable schedule : Z -> nat -> nat.
Variable scrapeUrl : string -> W -> Result Thrown string * W.
Variable extractFeatures :
  string -> W -> Result Thrown (option AccessibilityFeatures) * W.
Variable getRetryStats : W -> Stats * W.
Variable urlExists : string -> W -> bool.
Variable insertHotel : HotelRecord.t -> W -> Result JsError Z * W.

Local Abbreviation process := (processUrl scrapeUrl extractFeatures).
Local Abbreviation step := (stepTask scrapeUrl extractFeatures).
Local Abbreviation tasks_run := (runTasks scrapeUrl extractFeatures).
Local Abbreviation all := (promiseAll schedule scrapeUrl extractFeatures).
Local Abbreviation save := (saveResults insertHotel).
Local Abbreviation batches :=
  (batchLoop maxConcurrent schedule scrapeUrl extractFeatures insertHotel).
Local Abbreviation run :=
  (scrapeUrls maxConcurrent schedule scrapeUrl extractFeatures getRetryStats
     urlExists insertHotel).

(** [processUrl] never throws: whatever the two workers do, it returns a
    result for its url. *)
Lemma processUrl_result (url : string) (w : W) :
  ScrapeResult.url (fst (process url w)) = url
  /\ has_data_when_successful (fst (process url w)).
Proof.
  unfold processUrl, has_data_when_successful.
  destruct (scrapeUrl url w) as [[html|err] w1]; simpl.
  - destruct (extractFeatures html w1) as [[[features|]|err] w2]; simpl;
      split; try reflexivity; try discriminate.
    intros _. now exists features.
  - split; [reflexivity | discriminate].
Qed.

(** A call that is resumed twice with nothing in between is [processUrl]. *)
Lemma two_steps_are_processUrl (url : string) (w : W) :
  let '(t1, w1) := step (startTask w url) w in
  step t1 w1 = (SettledWith (fst (process url w)), snd (process url w)).
Proof.
  unfold startTask, processUrl. cbn [stepTask].
  destruct (scrapeUrl url w) as [[html|err] w1]; [|reflexivity].
  cbn [stepTask].
  now destruct (extractFeatures html w1) as [[[features|]|err] w2].
Qed.

(** A step keeps the url of the call, brings it nearer to its end, and
    settles it, if it does, with a result that carries its data. *)
Lemma stepTask_spec (t : Task) (w : W) :
  is_settled t = false ->
  task_url (fst (step t w)) = task_url t
  /\ (remaining (fst (step t w)) < remaining t)%nat
  /\ settled_with has_data_when_successful (fst (step t w)).
Proof.
  unfold has_data_when_successful.
  destruct t as [url timestamp|url timestamp html|r]; [| |discriminate];
    intros _; cbn [stepTask].
  - destruct (scrapeUrl url w) as [[html|err] w1]; simpl; repeat split;
      try lia; discriminate.
  - destruct (extractFeatures html w) as [[[features|]|err] w2]; simpl;
      repeat split; try lia; try discriminate.
    intros _. now exists features.
Qed.

(** With a step for each one that the calls still have to make, all the
    calls of a window settle, whatever the event loop chooses: the calls
    keep their urls and their places, and the log gains the event of each
    call that settles, in the order in which they settle. *)
Lemma runTasks_spec (P : ScrapeResult.t -> Prop) :
  (forall t w, is_settled t = false -> settled_with P (fst (step t w))) ->
  forall steps next k tasks w log,
    (pending_steps tasks <= steps)%nat ->
    Forall (settled_with P) tasks ->
    exists tasks' w' settles,
      tasks_run steps next k tasks w log = (tasks', w', (log ++ settles)%list)
      /\ Forall (fun t => is_settled t = true) tasks'
      /\ map task_url tasks' = map task_url tasks
      /\ Forall (settled_with P) tasks'
      /\ Permutation (flat_map settle_log tasks ++ settles)
           (flat_map settle_log tasks').
Proof.
  intros Hstep.
  assert (Hdone : forall tasks w log,
             Forall (fun t => is_settled t = true) tasks ->
             Forall (settled_with P) tasks ->
             exists tasks' (w' : W) settles,
               (tasks, w, log) = (tasks', w', (log ++ settles)%list)
               /\ Forall (fun t => is_settled t = true) tasks'
               /\ map task_url tasks' = map task_url tasks
               /\ Forall (settled_with P) tasks'
               /\ Permutation (flat_map settle_log tasks ++ settles)
                    (flat_map settle_log tasks')).
  { intros tasks w log Hall Hok. exists tasks, w, [].
    rewrite !app_nil_r. auto. }
  induction steps as [|steps IH]; intros next k tasks w log Hsteps Hok.
  - apply Hdone; [|exact Hok].
    apply Forall_forall. intros t Ht.
    destruct (in_split _ _ Ht) as (l1 & l2 & ->).
    rewrite pending_steps_app in Hsteps. unfold pending_steps in Hsteps.
    simpl in Hsteps. destruct t; simpl in *; auto; lia.
  - cbn [runTasks].
    destruct (pick (next k) tasks) as [[[before t] after]|] eqn:Hpick.
    2:{ apply Hdone; [now apply pick_none in Hpick | exact Hok]. }
    destruct (pick_spec _ _ _ _ _ Hpick) as [-> Hpending].
    destruct (stepTask_spec t w Hpending) as (Hurl & Hless & _).
    pose proof (Hstep t w Hpending) as Hnew.
    destruct (step t w) as [t' w1]. cbn [fst] in Hurl, Hless, Hnew.
    apply Forall_app in Hok. destruct Hok as [Hbefore Hafter].
    inversion Hafter as [|? ? _ Hrest]; subst.
    destruct (IH next (S k) (before ++ t' :: after)%list w1
                (log ++ settle_log t')%list)
      as (tasks' & w' & settles & Hrun & Hall & Hurls & Hok' & Hperm).
    { rewrite pending_steps_app in *. unfold pending_steps in *.
      simpl in *. lia. }
    { apply Forall_app. split; [exact Hbefore|]. now constructor. }
    exists tasks', w', (settle_log t' ++ settles)%list.
    split; [now rewrite Hrun, <- app_assoc|]. split; [exact Hall|].
    split; [rewrite Hurls, !map_app; simpl; now rewrite Hurl|].
    split; [exact Hok'|].
    rewrite <- Hperm. rewrite !flat_map_app. simpl.
    assert (Hnone : settle_log t = []) by now destruct t.
    rewrite Hnone. simpl. rewrite <- !app_assoc.
    apply Permutation_app_head.
    rewrite !app_assoc. apply Permutation_app_tail.
    apply Permutation_app_comm.
Qed.

(** The calls of a window all settle; the results are in the order of the
    window, and the log gains their events in the order in which the calls
    settle. *)
Lemma promiseAll_spec (P : ScrapeResult.t -> Prop) :
  (forall t w, is_settled t = false -> settled_with P (fst (step t w))) ->
  forall i batch w log, exists rs w' settles,
    all i batch w log = (rs, w', (log ++ settles)%list)
    /\ map ScrapeResult.url rs = batch
    /\ Forall P rs
    /\ Permutation settles (map settled_event rs).
Proof.
  intros Hstep i batch w log. unfold promiseAll.
  assert (Hstart : forall l : list string,
             pending_steps (map (startTask w) l) = (2 * List.length l)%nat
             /\ map task_url (map (startTask w) l) = l
             /\ flat_map settle_log (map (startTask w) l) = []
             /\ forall Q, Forall (settled_with Q) (map (startTask w) l)).
  { induction l as [|url l (IH1 & IH2 & IH3 & IH4)];
      [repeat split; constructor|].
    unfold pending_steps in *. simpl. rewrite IH1, IH2, IH3.
    repeat split; try lia. intros Q. constructor; [exact I | apply IH4]. }
  destruct (Hstart batch) as (Hsteps & Hurls & Hnone & Hok).
  destruct (runTasks_spec P Hstep
              (2 * List.length batch) (schedule i) 0
              (map (startTask w) batch) w log)
    as (tasks & w' & settles & Hrun & Hall & Hsame & Hdata & Hperm);
    [lia | apply Hok |].
  rewrite Hrun. exists (settled_results tasks), w', settles.
  destruct (settled_results_all tasks Hall) as [Hresults Hlog].
  split; [reflexivity|].
  split; [now rewrite <- Hresults, Hsame|].
  split; [now apply settled_results_with|].
  rewrite Hnone, Hlog in Hperm. exact Hperm.
Qed.



End ScraperFacts.




Section ScraperClaims.
Context {W : Type} `{Runtime W}.
Variable maxConcurrent : Z.
Variable schedule : Z -> nat -> nat.
Variable scrapeUrl : string -> W -> Result Thrown string * W.
Variable extractFeatures :
  string -> W -> Result Thrown (option AccessibilityFeatures) * W.
Variable getRetryStats : W -> Stats * W.
Variable urlExists : string -> W -> bool.
Variable insertHotel : HotelRecord.t -> W -> Result JsError Z * W.

Local Abbreviation run :=
  (scrapeUrls maxConcurrent schedule scrapeUrl extractFeatures getRetryStats
     urlExists insertHotel).


End ScraperClaims.

(** ** Examples of the batch scraper *)





(** ** Keys that are not urls *)

Section SharedBreaker.
Context {W : Type} `{Runtime W}.

Lemma extractDomain_unparseable (key : string) :
  URL_hostname key = None -> extractDomain key = "unknown".
Proof. intros Hkey. unfold extractDomain. now rewrite Hkey. Qed.

(** After the query the breaker of the key exists. *)
Lemma registry_isOpen_get (key : string) (now : Z) (m : Breakers) :
  Map_get (extractDomain key) (snd (registry_isOpen key now m))
  = Some (snd (isOpen now (fst (getCircuitBreaker (extractDomain key) m)))).
Proof.
  unfold registry_isOpen.
  destruct (getCircuitBreaker (extractDomain key) m) as [cb m'].
  cbn [fst]. destruct (isOpen now cb) as [open cb']. simpl.
  apply Map_get_set_same.
Qed.

(** A run of an operation that always fails with a retryable error adds
    [maxAttempts] failures to the breaker of the key. *)
Lemma executeWithRetry_all_fail {T : Type} (config : RetryConfig)
    (operation : W -> Result JsError T * W) (url context : string)
    (s : State W) :
  let q := registry_isOpen url (dateNow (world s)) (circuitBreakers s) in
  1 <= maxAttempts config ->
  fst q = false ->
  fails_retryable operation url context ->
  exists d s' cb cb',
    executeWithRetry config operation url context s
    = (Throw (ThrowDetailed d), s')
    /\ invocations s' = (invocations s + Z.to_nat (maxAttempts config))%nat
    /\ Map_get (extractDomain url) (snd q) = Some cb
    /\ Map_get (extractDomain url) (circuitBreakers s') = Some cb'
    /\ failures cb' = failures cb + maxAttempts config
    /\ lastFailureTime cb' = dateNow (world s').
Proof.
  intros q Hmax Hclosed Hfail.
  pose proof (executeWithRetry_unfold config operation url context s)
    as Hexec.
  cbv zeta in Hexec. fold q in Hexec. rewrite Hclosed in Hexec.
  unfold attemptRange in Hexec.
  replace (Z.to_nat (maxAttempts config))
    with (S (Z.to_nat (maxAttempts config) - 1)) in Hexec by lia.
  edestruct (attemptLoop_all_fail config operation url context
               (extractDomain url) Hfail
               (Z.to_nat (maxAttempts config) - 1) 1 None)
    as (d & s' & Hloop & _ & Hinv & Hcb); [lia|].
  rewrite Hloop in Hexec.
  pose proof (registry_isOpen_get url (dateNow (world s)) (circuitBreakers s))
    as Hget.
  fold q in Hget.
  destruct (Hcb _ Hget) as (cb' & Hget' & Hf & _ & Ht).
  exists d, s'. eexists. exists cb'.
  split; [exact Hexec|]. split; [simpl in Hinv; lia|].
  split; [exact Hget|]. split; [exact Hget'|]. split; [lia|exact Ht].
Qed.

(** C10.  A key that the URL parser rejects, as ["AI-extraction"] is, has
    the domain ["unknown"].  The failures of a call under one such key
    are added to the breaker of ["unknown"]; once that count has reached
    the threshold, a call under any other such key made within
    [resetTimeout] is refused, whatever its operation. *)
Theorem unparseable_keys_share_the_unknown_breaker
    {T T' : Type} (config : RetryConfig) (key key' : string)
    (operation : W -> Result JsError T * W) (context : string)
    (s : State W) :
  URL_hostname key = None -> URL_hostname key' = None ->
  extractDomain key = "unknown"
  /\ extractDomain key' = "unknown"
  /\ extractDomain "AI-extraction" = "unknown"
  /\ (1 <= maxAttempts config ->
      fst (registry_isOpen key (dateNow (world s)) (circuitBreakers s))
      = false ->
      fails_retryable operation key context ->
      exists thrown s' cb cb',
        executeWithRetry config operation key context s = (Throw thrown, s')
        /\ Map_get "unknown"
             (snd (registry_isOpen key (dateNow (world s))
                     (circuitBreakers s))) = Some cb
        /\ Map_get "unknown" (circuitBreakers s') = Some cb'
        /\ failures cb' = failures cb + maxAttempts config
        /\ (failureThreshold <= failures cb' ->
            forall (config' : RetryConfig)
                   (operation' : W -> Result JsError T' * W)
                   (context' : string) (s'' : State W),
              circuitBreakers s'' = circuitBreakers s' ->
              dateNow (world s'') - dateNow (world s') <= resetTimeout ->
              exists thrown',
                executeWithRetry config' operation' key' context' s''
                = (Throw thrown', s'')
                /\ Thrown_retryable thrown' = Some false)).
Proof.
  intros Hkey Hkey'.
  pose proof (extractDomain_unparseable key Hkey) as Hdomain.
  pose proof (extractDomain_unparseable key' Hkey') as Hdomain'.
  split; [exact Hdomain|]. split; [exact Hdomain'|].
  split; [apply extractDomain_unparseable, URL_needs_scheme; reflexivity|].
  intros Hmax Hclosed Hfail.
  destruct (executeWithRetry_all_fail config operation key context s
              Hmax Hclosed Hfail)
    as (d & s' & cb & cb' & Hexec & _ & Hget & Hget' & Hf & Ht).
  rewrite Hdomain in Hget, Hget'.
  exists (ThrowDetailed d), s', cb, cb'.
  split; [exact Hexec|]. split; [exact Hget|]. split; [exact Hget'|].
  split; [exact Hf|].
  intros Hthreshold config' operation' context' s'' Hsame Hsoon.
  assert (Hopen : fst (registry_isOpen key' (dateNow (world s''))
                         (circuitBreakers s'')) = true).
  { rewrite registry_isOpen_fst, Hdomain', Hsame.
    unfold getCircuitBreaker. rewrite Hget'. simpl.
    apply isOpen_true_iff. split; [exact Hthreshold | lia]. }
  eexists. split; [apply executeWithRetry_open, Hopen | reflexivity].
Qed.
End SharedBreaker.

(** Witness of C10: two failures are on record under ["unknown"]; a call
    under ["AI-extraction"] fails three times; a call under another key
    that is no url is then refused. *)
Lemma shared_unknown_breaker_witness :
  exists thrown s',
    executeWithRetry retryManagerConfig
      (always_throws (T:=option AccessibilityFeatures) connection_refused)
      "AI-extraction" "feature extraction" (example_state 0 unknown_breakers)
    = (Throw thrown, s')
    /\ exists thrown',
         executeWithRetry retryManagerConfig
           (always_throws (T:=string) connection_refused)
           "not a url" "scraping" s'
         = (Throw thrown', s')
         /\ Thrown_retryable thrown' = Some false.
Proof.
  assert (Hkey : URL_hostname (W:=ExampleWorld) "AI-extraction" = None)
    by reflexivity.
  assert (Hkey' : URL_hostname (W:=ExampleWorld) "not a url" = None)
    by reflexivity.
  destruct (unparseable_keys_share_the_unknown_breaker (T':=string)
              retryManagerConfig "AI-extraction" "not a url"
              (always_throws (T:=option AccessibilityFeatures)
                 connection_refused)
              "feature extraction" (example_state 0 unknown_breakers)
              Hkey Hkey')
    as (_ & _ & _ & Hshare).
  destruct Hshare as (thrown & s' & cb & cb' & Hexec & Hget & _ & Hf & Hopen).
  - vm_compute. discriminate.
  - reflexivity.
  - intros w. exists connection_refused, (setTimeout (double_of_Z 10) w).
    split; [reflexivity|]. intros attempt now. reflexivity.
  - exists thrown, s'. split; [exact Hexec|].
    vm_compute in Hget. injection Hget as <-.
    assert (Hcount : failureThreshold <= failures cb')
      by (rewrite Hf; vm_compute; discriminate).
    assert (Hsoon : dateNow (world s') - dateNow (world s') <= resetTimeout)
      by (rewrite Z.sub_diag; vm_compute; discriminate).
    destruct (Hopen Hcount retryManagerConfig
                (always_throws (T:=string) connection_refused)
                "scraping" s' eq_refl Hsoon)
      as (thrown' & Hexec' & Hflag).
    exists thrown'. auto.
Defined.

(** * More properties of the code *)

(** ** The keys of the map of breakers *)

Section MapKeys.
Context {V : Type}.
Implicit Types (k : string) (v : V) (m : list (string * V)).

Lemma Map_get_None_iff k m : Map_get k m = None <-> ~ In k (map fst m).
Proof.
  induction m as [|[k' v'] m IH]; simpl.
  - tauto.
  - destruct (String.eqb_spec k' k) as [->|Hne].
    + split; [discriminate | intros Hnot; contradiction Hnot; now left].
    + rewrite IH. tauto.
Qed.

Lemma Map_set_keys_present k v v0 m :
  Map_get k m = Some v0 -> map fst (Map_set k v m) = map fst m.
Proof.
  induction m as [|[k' v'] m IH]; simpl; [discriminate|].
  destruct (String.eqb k' k); simpl; [reflexivity|].
  intros Hget. now rewrite IH.
Qed.

Lemma Map_set_keys_absent k v m :
  Map_get k m = None -> map fst (Map_set k v m) = (map fst m ++ [k])%list.
Proof.
  induction m as [|[k' v'] m IH]; simpl; [reflexivity|].
  destruct (String.eqb k' k); simpl; [discriminate|].
  intros Hget. now rewrite IH.
Qed.
End MapKeys.

Lemma on_breaker_keys (domain : string) (f : CircuitBreaker -> CircuitBreaker)
    (m : Breakers) :
  map fst (on_breaker domain f m) = map fst m.
Proof.
  unfold on_breaker. destruct (Map_get domain m) as [cb|] eqn:Hget;
    [|reflexivity].
  exact (Map_set_keys_present _ _ _ _ Hget).
Qed.

Lemma on_breaker_other (domain d : string)
    (f : CircuitBreaker -> CircuitBreaker) (m : Breakers) :
  d <> domain -> Map_get d (on_breaker domain f m) = Map_get d m.
Proof.
  intros Hne. unfold on_breaker. destruct (Map_get domain m) as [cb|];
    [|reflexivity].
  apply Map_get_set_other. congruence.
Qed.

Section RegistryKeys.
Context {W : Type} `{Runtime W}.

Lemma registry_isOpen_other (key d : string) (now : Z) (m : Breakers) :
  d <> extractDomain key ->
  Map_get d (snd (registry_isOpen key now m)) = Map_get d m.
Proof.
  intros Hne. unfold registry_isOpen, getCircuitBreaker.
  destruct (Map_get (extractDomain key) m) as [cb|].
  - destruct (isOpen now cb) as [open cb']. simpl.
    apply Map_get_set_other. congruence.
  - rewrite newCircuitBreaker_closed. simpl.
    rewrite !Map_get_set_other by congruence. reflexivity.
Qed.

Lemma registry_isOpen_keys (key : string) (now : Z) (m : Breakers) :
  map fst (snd (registry_isOpen key now m))
  = if Map_has (extractDomain key) m then map fst m
    else (map fst m ++ [extractDomain key])%list.
Proof.
  unfold registry_isOpen, getCircuitBreaker, Map_has.
  destruct (Map_get (extractDomain key) m) as [cb|] eqn:Hget.
  - destruct (isOpen now cb) as [open cb']. simpl.
    exact (Map_set_keys_present _ _ _ _ Hget).
  - rewrite newCircuitBreaker_closed. simpl.
    rewrite (Map_set_keys_present _ newCircuitBreaker newCircuitBreaker)
      by apply Map_get_set_same.
    now apply Map_set_keys_absent.
Qed.
End RegistryKeys.

(** ** The loop of attempts, for any operation *)

Section LoopFacts.
Context {W : Type} `{Runtime W} {T : Type}.
Variable config : RetryConfig.
Variable operation : W -> Result JsError T * W.
Variables (url context domain : string).

Local Abbreviation loop :=
  (attemptLoop config operation url context domain).

(** The loop works on the breaker of [domain] only, keeps the keys of the
    map, and calls the operation at most once for each attempt. *)
Lemma attemptLoop_frame (attempts : list Z) :
  forall lastError s r s',
    loop attempts lastError s = (r, s') ->
    map fst (circuitBreakers s') = map fst (circuitBreakers s)
    /\ (forall d, d <> domain ->
          Map_get d (circuitBreakers s') = Map_get d (circuitBreakers s))
    /\ (invocations s <= invocations s'
        <= invocations s + List.length attempts)%nat.
Proof.
  induction attempts as [|attempt rest IH]; intros lastError s r s'.
  - simpl. intros Heq. injection Heq as _ <-. repeat split; lia.
  - cbn [attemptLoop].
    destruct (operation (world s)) as [[v|error] w].
    + intros Heq. injection Heq as _ <-. simpl.
      split; [apply on_breaker_keys|].
      split; [intros d Hd; now apply on_breaker_other | lia].
    + destruct (negb _ || _).
      * intros Heq. injection Heq as _ <-. simpl.
        split; [apply on_breaker_keys|].
        split; [intros d Hd; now apply on_breaker_other | lia].
      * destruct (calculateDelay config attempt w) as [delay w1].
        intros Hloop. apply IH in Hloop. simpl in Hloop.
        destruct Hloop as (Hkeys & Hframe & Hinv).
        rewrite on_breaker_keys in Hkeys.
        split; [exact Hkeys|]. split; [|simpl; lia].
        intros d Hd. rewrite (Hframe d Hd). now apply on_breaker_other.
Qed.

(** When the loop returns a value, the breaker has just recorded a
    success. *)
Lemma attemptLoop_ok (attempts : list Z) :
  forall lastError s v s' cb,
    loop attempts lastError s = (Ok v, s') ->
    Map_get domain (circuitBreakers s) = Some cb ->
    exists cb',
      Map_get domain (circuitBreakers s') = Some cb'
      /\ failures cb' = 0
      /\ successes cb' = successes cb + 1.
Proof.
  induction attempts as [|attempt rest IH]; intros lastError s v s' cb.
  - discriminate.
  - cbn [attemptLoop].
    destruct (operation (world s)) as [[v0|error] w].
    + intros Heq Hget. injection Heq as _ <-. simpl.
      exists (recordSuccess cb). split; [now apply on_breaker_get|].
      split; reflexivity.
    + destruct (negb _ || _); [discriminate|].
      destruct (calculateDelay config attempt w) as [delay w1].
      intros Hloop Hget.
      apply (IH _ _ _ _ (recordFailure (dateNow w) cb)) in Hloop.
      * exact Hloop.
      * simpl. now apply on_breaker_get.
Qed.

End LoopFacts.

(** ** executeWithRetry, for any operation *)


Lemma isOpen_successes (now : Z) (cb : CircuitBreaker) :
  successes (snd (isOpen now cb)) = successes cb.
Proof. now destruct (isOpen_auto_reset now cb) as (Hs & _). Qed.

Section RetryExtras.
Context {W : Type} `{Runtime W} {T : Type}.
Variable config : RetryConfig.

(** X1.  A call of [executeWithRetry] leaves the breakers of all other
    domains as they are; the map keeps its keys in their order and gains
    the domain of the key, at the end, when it is new; a map without
    duplicate keys stays so. *)
Theorem executeWithRetry_touches_only_its_domain
    (operation : W -> Result JsError T * W) (url context : string)
    (s : State W) :
  let s' := snd (executeWithRetry config operation url context s) in
  (forall d, d <> extractDomain url ->
     Map_get d (circuitBreakers s') = Map_get d (circuitBreakers s))
  /\ map fst (circuitBreakers s')
     = (if Map_has (extractDomain url) (circuitBreakers s)
        then map fst (circuitBreakers s)
        else (map fst (circuitBreakers s) ++ [extractDomain url])%list)
  /\ (NoDup (map fst (circuitBreakers s)) ->
      NoDup (map fst (circuitBreakers s'))).
Proof.
  intros s'.
  assert (Hframe :
            (forall d, d <> extractDomain url ->
               Map_get d (circuitBreakers s') = Map_get d (circuitBreakers s))
            /\ map fst (circuitBreakers s')
               = map fst (snd (registry_isOpen url (dateNow (world s))
                                 (circuitBreakers s)))).
  { subst s'. rewrite executeWithRetry_unfold.
    destruct (fst (registry_isOpen url (dateNow (world s)) (circuitBreakers s))).
    - simpl. split; [|reflexivity].
      intros d Hd. now apply registry_isOpen_other.
    - destruct (attemptLoop _ _ _ _ _ _ _ _) as [r s2] eqn:Hloop.
      apply attemptLoop_frame in Hloop. simpl in Hloop |- *.
      destruct Hloop as (Hkeys & Hother & _). split; [|exact Hkeys].
      intros d Hd. rewrite (Hother d Hd). now apply registry_isOpen_other. }
  destruct Hframe as [Hother Hkeys].
  rewrite registry_isOpen_keys in Hkeys.
  split; [exact Hother|]. split; [exact Hkeys|].
  intros Hnodup. rewrite Hkeys. unfold Map_has.
  destruct (Map_get (extractDomain url) (circuitBreakers s)) eqn:Hget;
    [exact Hnodup|].
  apply Map_get_None_iff in Hget.
  apply NoDup_app; [exact Hnodup | repeat constructor; auto |].
  intros k Hin [<-|[]]. contradiction.
Qed.

(** X2.  When [executeWithRetry] returns a value, the breaker of the key
    has no failure on record and one success more than before the call,
    and it is closed at any time from then on. *)
Theorem success_resets_the_breaker
    (operation : W -> Result JsError T * W) (url context : string)
    (s : State W) (v : T) (s' : State W) :
  executeWithRetry config operation url context s = (Ok v, s') ->
  exists cb',
    Map_get (extractDomain url) (circuitBreakers s') = Some cb'
    /\ failures cb' = 0
    /\ successes cb'
       = successes (fst (getCircuitBreaker (extractDomain url)
                           (circuitBreakers s))) + 1
    /\ forall now, fst (registry_isOpen url now (circuitBreakers s')) = false.
Proof.
  rewrite executeWithRetry_unfold.
  destruct (fst (registry_isOpen url (dateNow (world s)) (circuitBreakers s)));
    [discriminate|].
  intros Hloop.
  pose proof (registry_isOpen_get url (dateNow (world s)) (circuitBreakers s))
    as Hget.
  destruct (attemptLoop_ok _ _ _ _ _ _ _ _ _ _ _ Hloop Hget)
    as (cb' & Hget' & Hf & Hs).
  exists cb'. split; [exact Hget'|]. split; [exact Hf|].
  split; [now rewrite Hs, isOpen_successes|].
  intros now. rewrite registry_isOpen_fst. unfold getCircuitBreaker.
  rewrite Hget'. simpl.
  destruct (fst (isOpen now cb')) eqn:Hopen; [|reflexivity].
  apply isOpen_true_iff in Hopen. unfold failureThreshold in Hopen. lia.
Qed.


(** X4.  With the circuit closed and at least one attempt allowed, a first
    error that is classified as not retryable ends the call: one
    invocation, no delay, and that classified error is thrown. *)
Theorem non_retryable_error_is_not_retried
    (operation : W -> Result JsError T * W) (url context : string)
    (s : State W) (error : JsError) (w' : W) :
  1 <= maxAttempts config ->
  fst (registry_isOpen url (dateNow (world s)) (circuitBreakers s)) = false ->
  operation (world s) = (Throw error, w') ->
  truthy (DetailedError.retryable
            (categorizeError error url 1 context (dateNow w'))) = false ->
  exists s',
    executeWithRetry config operation url context s
    = (Throw (ThrowDetailed (categorizeError error url 1 context (dateNow w'))),
       s')
    /\ invocations s' = S (invocations s)
    /\ world s' = w'.
Proof.
  intros Hmax Hclosed Hop Hflag.
  rewrite executeWithRetry_unfold, Hclosed. unfold attemptRange.
  replace (Z.to_nat (maxAttempts config))
    with (S (Z.to_nat (maxAttempts config) - 1)) by lia.
  change (map Z.of_nat (seq 1 (S ?k)))
    with (1 :: map Z.of_nat (seq 2 k)).
  cbn [attemptLoop]. simpl world. rewrite Hop, Hflag. simpl.
  eexists. repeat split.
Qed.

(** X5.  With [maxAttempts] at 0 or below and the circuit closed, the
    operation is not invoked and the call throws the non-retryable
    [RetryableError] "All retry attempts failed". *)
Theorem no_attempt_without_budget
    (operation : W -> Result JsError T * W) (url context : string)
    (s : State W) :
  maxAttempts config <= 0 ->
  fst (registry_isOpen url (dateNow (world s)) (circuitBreakers s)) = false ->
  exists s',
    executeWithRetry config operation url context s
    = (Throw (ThrowError
                (RetryableError UNKNOWN_ERROR "All retry attempts failed"
                   None false)), s')
    /\ invocations s' = invocations s
    /\ world s' = world s.
Proof.
  intros Hmax Hclosed.
  rewrite executeWithRetry_unfold, Hclosed. unfold attemptRange.
  replace (Z.to_nat (maxAttempts config)) with 0%nat by lia.
  simpl. eexists. repeat split.
Qed.
End RetryExtras.

(** Witness of X2: the connection is refused once, then the page loads. *)
Lemma success_resets_the_breaker_witness :
  fst (executeWithRetry defaultConfig
         (fails_before 200 connection_refused "<html>")
         "https://a.example/rooms" "scraping" (example_state 100 []))
  = Ok "<html>"
  /\ invocations
       (snd (executeWithRetry defaultConfig
               (fails_before 200 connection_refused "<html>")
               "https://a.example/rooms" "scraping" (example_state 100 [])))
     = 2%nat
  /\ exists cb',
       Map_get "a.example"
         (circuitBreakers
            (snd (executeWithRetry defaultConfig
                    (fails_before 200 connection_refused "<html>")
                    "https://a.example/rooms" "scraping"
                    (example_state 100 []))))
       = Some cb'
       /\ failures cb' = 0.
Proof.
  split; [reflexivity|]. split; [reflexivity|].
  destruct (success_resets_the_breaker defaultConfig
              (fails_before 200 connection_refused "<html>")
              "https://a.example/rooms" "scraping" (example_state 100 [])
              "<html>"
              (snd (executeWithRetry defaultConfig
                      (fails_before 200 connection_refused "<html>")
                      "https://a.example/rooms" "scraping"
                      (example_state 100 []))))
    as (cb' & Hget & Hf & _); [reflexivity|].
  exists cb'. split; [exact Hget | exact Hf].
Defined.

(** Witness of X4: a page that answers "HTTP 404". *)
Lemma non_retryable_error_witness :
  exists s',
    executeWithRetry defaultConfig
      (always_throws (T:=string) (http_error 404 "HTTP 404: page not found"))
      "https://a.example/rooms" "scraping" (example_state 100 [])
    = (Throw (ThrowDetailed
                (categorizeError (http_error 404 "HTTP 404: page not found")
                   "https://a.example/rooms" 1 "scraping" 110)), s')
    /\ invocations s' = 1%nat.
Proof.
  destruct (non_retryable_error_is_not_retried defaultConfig
              (always_throws (T:=string)
                 (http_error 404 "HTTP 404: page not found"))
              "https://a.example/rooms" "scraping" (example_state 100 [])
              (http_error 404 "HTTP 404: page not found")
              (setTimeout (double_of_Z 10) (example_world 100)))
    as (s' & Hexec & Hinv & _);
    try reflexivity; [vm_compute; discriminate|].
  exists s'. split; [exact Hexec | exact Hinv].
Defined.

(** Witness of X5. *)
Lemma no_attempt_without_budget_witness :
  exists s',
    executeWithRetry no_attempt_config
      (always_throws (T:=string) connection_refused)
      "https://a.example/rooms" "scraping" (example_state 100 [])
    = (Throw (ThrowError
                (RetryableError UNKNOWN_ERROR "All retry attempts failed"
                   None false)), s')
    /\ invocations s' = 0%nat.
Proof.
  destruct (no_attempt_without_budget no_attempt_config
              (always_throws (T:=string) connection_refused)
              "https://a.example/rooms" "scraping" (example_state 100 []))
    as (s' & Hexec & Hinv & _);
    [vm_compute; discriminate | reflexivity |].
  exists s'. split; [exact Hexec | exact Hinv].
Defined.

(** ** The life of a breaker *)

Lemma replay_snoc (history : list BreakerEvent) (ev : BreakerEvent)
    (cb : CircuitBreaker) :
  replay (history ++ [ev]) cb = apply_event (replay history cb) ev.
Proof. unfold replay. now rewrite fold_left_app. Qed.

Lemma consecutive_failures_snoc (history : list BreakerEvent)
    (ev : BreakerEvent) :
  consecutive_failures (history ++ [ev])
  = match ev with
    | Succeeded => []
    | Failed now => (consecutive_failures history ++ [now])%list
    end.
Proof. unfold consecutive_failures. now rewrite fold_left_app. Qed.

Lemma replay_counts (history : list BreakerEvent) :
  let cb := replay history newCircuitBreaker in
  failures cb = Z.of_nat (List.length (consecutive_failures history))
  /\ successes cb = Z.of_nat (List.length (filter is_success history))
  /\ (consecutive_failures history <> [] ->
      lastFailureTime cb = last (consecutive_failures history) 0).
Proof.
  induction history as [|ev history IH] using rev_ind.
  - split; [reflexivity|]. split; [reflexivity|].
    intros Hne. now contradiction Hne.
  - cbv zeta in IH |- *. destruct IH as (Hf & Hs & Ht).
    rewrite replay_snoc, consecutive_failures_snoc, filter_app, length_app.
    destruct ev as [|now]; simpl.
    + rewrite Hs. split; [reflexivity|]. split; [lia|].
      intros Hne. now contradiction Hne.
    + rewrite Hf, Hs, length_app, last_last. simpl.
      split; [lia|]. split; [lia|]. intros _. reflexivity.
Qed.

(** X6.  After any sequence of recorded successes and failures on a new
    breaker, the failure count is the number of failures since the last
    success, the success count is the number of successes, and the breaker
    is open exactly when at least five failures came after the last success
    and the last of them is at most [resetTimeout] old. *)
Theorem breaker_opens_on_five_consecutive_failures
    (history : list BreakerEvent) (now : Z) :
  let cb := replay history newCircuitBreaker in
  failures cb = Z.of_nat (List.length (consecutive_failures history))
  /\ successes cb = Z.of_nat (List.length (filter is_success history))
  /\ (fst (isOpen now cb) = true
      <-> (5 <= List.length (consecutive_failures history))%nat
          /\ now - last (consecutive_failures history) 0 <= resetTimeout).
Proof.
  intros cb. destruct (replay_counts history) as (Hf & Hs & Ht). fold cb in Hf, Hs, Ht.
  split; [exact Hf|]. split; [exact Hs|].
  rewrite isOpen_true_iff, Hf. unfold failureThreshold.
  split; intros [Hcount Hage].
  - assert (Hne : consecutive_failures history <> [])
      by (intros Hnil; rewrite Hnil in Hcount; simpl in Hcount; lia).
    rewrite <- (Ht Hne). split; [lia | exact Hage].
  - assert (Hne : consecutive_failures history <> [])
      by (intros Hnil; rewrite Hnil in Hcount; simpl in Hcount; lia).
    rewrite (Ht Hne). split; [lia | exact Hage].
Qed.

(** ** getStats *)

Lemma isOpen_twice (now : Z) (cb : CircuitBreaker) :
  isOpen now (snd (isOpen now cb)) = (fst (isOpen now cb), snd (isOpen now cb)).
Proof.
  unfold isOpen.
  destruct (failures cb <? failureThreshold) eqn:Hlow; simpl.
  - now rewrite Hlow.
  - destruct (now - lastFailureTime cb >? resetTimeout) eqn:Hlate; simpl.
    + reflexivity.
    + now rewrite Hlow, Hlate.
Qed.

Section StatsFacts.
Context {W : Type} `{Runtime W}.

(** X7.  [getStats] reports one entry for each breaker, in the order of
    the map; the number of open circuits is the number of entries reported
    open and at most the number of domains; an entry reported open has at
    least [failureThreshold] failures; and a second call right after the
    first leaves the breakers as the first one did. *)
Theorem getStats_reports_every_breaker (s : State W) :
  let out := getStats s in
  map st_domain (domains (fst out)) = map fst (circuitBreakers s)
  /\ totalDomains (fst out) = List.length (circuitBreakers s)
  /\ openCircuits (fst out)
     = List.length (filter st_isOpen (domains (fst out)))
  /\ (openCircuits (fst out) <= totalDomains (fst out))%nat
  /\ Forall (fun e => st_isOpen e = true -> failureThreshold <= st_failures e)
       (domains (fst out))
  /\ snd (getStats (snd out)) = snd out.
Proof.
  intros out. subst out. unfold getStats. cbn [fst snd domains totalDomains
    openCircuits world circuitBreakers invocations].
  split; [|split; [|split; [|split; [|split]]]].
  - rewrite map_map. apply map_ext. now intros [d cb].
  - now rewrite length_map.
  - reflexivity.
  - apply filter_length_le.
  - apply Forall_forall. intros e Hin. apply in_map_iff in Hin.
    destruct Hin as ([d cb] & <- & _). simpl. intros Hopen.
    now apply isOpen_true_iff in Hopen.
  - f_equal. rewrite map_map. apply map_ext. intros [d cb].
    now rewrite isOpen_twice.
Qed.
End StatsFacts.

(** ** categorizeError on errors without the marker *)

Lemma message_or_default_not_empty (error : JsError) :
  message_or_default error <> "".
Proof.
  unfold message_or_default. destruct (err_message error) as [m|];
    [|discriminate].
  destruct (String.eqb_spec m ""); [discriminate | assumption].
Qed.

(** X10.  An error that is not named [RetryableError] always gets a kind and
    a non-empty message, and it is retryable exactly when its message holds
    none of the texts 401, 403 and 404. *)
Theorem plain_errors_are_retried_unless_status_text
    (error : JsError) (url : string) (attempt : Z) (context : string)
    (now : Z) :
  field_is (err_name error) "RetryableError" = false ->
  let d := categorizeError error url attempt context now in
  DetailedError.type d <> None
  /\ DetailedError.message d <> ""
  /\ DetailedError.retryable d
     = Some (negb (has_status_text (message_or_default error))).
Proof.
  intros Hname d. subst d. unfold categorizeError, has_status_text.
  rewrite Hname.
  split; [|split].
  - repeat match goal with
           | |- context [if ?b then _ else _] => destruct b
           end; discriminate.
  - match goal with
    | |- context [let '(_, _) := ?x in _] => destruct x
    end.
    apply message_or_default_not_empty.
  - repeat match goal with
           | |- context [if ?b then _ else _] => destruct b
           end; reflexivity.
Qed.

(** Witness of X10. *)
Lemma plain_errors_witness :
  DetailedError.retryable
    (categorizeError connection_refused "https://a.example/" 2 "scraping" 0)
  = Some true.
Proof.
  destruct (plain_errors_are_retried_unless_status_text connection_refused
              "https://a.example/" 2 "scraping" 0 eq_refl)
    as (_ & _ & Hretry).
  exact Hretry.
Defined.

(** ** worker.ts *)

(** X11.  The [catch] block of the operation of [extractFeatures], for an
    error that is no [SyntaxError] and whose message does not mention JSON:
    without a status, or with a status below 400, the error is thrown
    again as it is; with a status from 400 on it becomes a
    [RetryableError] of kind [AI_EXTRACTION_ERROR], marked as not retryable
    exactly for the statuses 400 to 499 other than 429. *)
Theorem extractFeatures_catch_marks_client_errors
    (undefinedTypeError error : JsError) (m : string) :
  field_is (err_name error) "SyntaxError" = false ->
  err_message error = Some m ->
  includes m "JSON" = false ->
  let thrown := extractFeatures_catch undefinedTypeError error in
  match err_status error with
  | None => thrown = error
  | Some status =>
      if status <? 400 then thrown = error
      else err_errorType thrown = Some AI_EXTRACTION_ERROR
           /\ err_name thrown = Some "RetryableError"
           /\ err_retryable thrown
              = Some (negb ((status <? 500) && negb (status =? 429)))
  end.
Proof.
  intros Hname Hmessage Hjson thrown. subst thrown.
  unfold extractFeatures_catch. rewrite Hname, Hmessage, Hjson.
  destruct (err_status error) as [status|]; [|reflexivity].
  destruct (Z.eqb_spec status 429) as [->|Hne]; [repeat split|].
  destruct (Z.ltb_spec status 400) as [Hlow|Hhigh].
  - destruct (Z.geb_spec status 500); [lia|].
    destruct (Z.geb_spec status 400); [lia|]. reflexivity.
  - destruct (Z.geb_spec status 500) as [Hserver|Hclient].
    + destruct (Z.ltb_spec status 500); [lia|]. repeat split.
    + destruct (Z.geb_spec status 400); [|lia].
      destruct (Z.ltb_spec status 500); [|lia]. repeat split.
Qed.

(** Witness of X11: the empty answer of the model, thrown inside the [try]
    block, leaves the [catch] block as it is. *)
Lemma extractFeatures_catch_witness :
  extractFeatures_catch undefined_type_error
    (RetryableError AI_EXTRACTION_ERROR "Empty response from AI model" None
       true)
  = RetryableError AI_EXTRACTION_ERROR "Empty response from AI model" None
      true.
Proof.
  exact (extractFeatures_catch_marks_client_errors undefined_type_error
           (RetryableError AI_EXTRACTION_ERROR "Empty response from AI model"
              None true)
           "Empty response from AI model" eq_refl eq_refl eq_refl).
Defined.

Section WorkerFacts.
Context {W : Type} `{Runtime W}.

Lemma executeWithRetry_other_domains {T : Type} (config : RetryConfig)
    (operation : W -> Result JsError T * W) (url context : string)
    (s : State W) (d : string) :
  d <> extractDomain url ->
  Map_get d
    (circuitBreakers (snd (executeWithRetry config operation url context s)))
  = Map_get d (circuitBreakers s).
Proof.
  intros Hd. rewrite executeWithRetry_unfold.
  destruct (fst (registry_isOpen url (dateNow (world s)) (circuitBreakers s))).
  - simpl. now apply registry_isOpen_other.
  - destruct (attemptLoop _ _ _ _ _ _ _ _) as [r s2] eqn:Hloop.
    apply attemptLoop_frame in Hloop. simpl in Hloop |- *.
    destruct Hloop as (_ & Hother & _).
    rewrite (Hother d Hd). now apply registry_isOpen_other.
Qed.

(** X12.  The two workers keep separate breakers: feature extraction only
    touches the breaker of ["unknown"], and scraping a url whose hostname
    is not ["unknown"] never touches that one. *)
Theorem scraping_and_extraction_keep_separate_breakers
    (pageOperation : string -> W -> Result JsError string * W)
    (modelRequest :
       string -> W -> Result JsError (option AccessibilityFeatures) * W)
    (undefinedTypeError : JsError) (s : State W) :
  (forall text d,
     d <> "unknown" ->
     Map_get d
       (circuitBreakers
          (snd (extractFeatures modelRequest undefinedTypeError text s)))
     = Map_get d (circuitBreakers s))
  /\ (forall url hostname,
        URL_hostname url = Some hostname -> hostname <> "unknown" ->
        Map_get "unknown"
          (circuitBreakers (snd (scrapeUrl pageOperation url s)))
        = Map_get "unknown" (circuitBreakers s)).
Proof.
  split.
  - intros text d Hd. unfold extractFeatures.
    apply executeWithRetry_other_domains.
    now rewrite (extractDomain_unparseable "AI-extraction")
      by (apply URL_needs_scheme; reflexivity).
  - intros url hostname Hurl Hne. unfold scrapeUrl.
    apply executeWithRetry_other_domains.
    unfold extractDomain. rewrite Hurl. congruence.
Qed.
End WorkerFacts.

(** ** worker.ts: the text handed to the model *)

Lemma slice_from_start {A : Type} (n : Z) (l : list A) :
  1 <= n -> slice 0 n l = firstn (Z.to_nat n) l.
Proof.
  intros Hn. change n with (0 + n) at 1.
  now rewrite slice_window by lia.
Qed.

Lemma collapseWhitespace_single_spaced (s : list Z) :
  forall inRun, single_spaced inRun (collapseWhitespace inRun s) = true.
Proof.
  induction s as [|c rest IH]; intros inRun; simpl; [reflexivity|].
  destruct (isWhitespace c) eqn:Hc.
  - destruct inRun; [apply IH|].
    simpl. now rewrite IH.
  - simpl. rewrite Hc. apply IH.
Qed.

Lemma single_spaced_false_collapse (s : list Z) :
  forall afterSpace,
    single_spaced afterSpace s = true ->
    collapseWhitespace afterSpace s = s.
Proof.
  induction s as [|c rest IH]; intros afterSpace; simpl; [reflexivity|].
  destruct (isWhitespace c).
  - destruct afterSpace; simpl.
    + rewrite andb_false_r. discriminate.
    + rewrite andb_true_r. intros Hs. apply andb_prop in Hs.
      destruct Hs as [Hc Hrest]. apply Z.eqb_eq in Hc. subst c.
      now rewrite IH.
  - intros Hrest. now rewrite IH.
Qed.

Lemma single_spaced_firstn (n : nat) :
  forall s afterSpace,
    single_spaced afterSpace s = true ->
    single_spaced afterSpace (firstn n s) = true.
Proof.
  induction n as [|n IH]; intros s afterSpace; [reflexivity|].
  destruct s as [|c rest]; simpl; [reflexivity|].
  destruct (isWhitespace c).
  - intros Hs. apply andb_prop in Hs. destruct Hs as [Hhead Hrest].
    rewrite Hhead. now apply IH.
  - apply IH.
Qed.

(** X13.  The page text that [scrapeUrl] returns,
    [html.replace(/\s+/g, " ").slice(0, 6000)], has at most 6000 code units,
    holds white space only as single spaces, and is left as it is when
    it is normalized again. *)
Theorem normalizeHtml_is_short_and_single_spaced (html : list Z) :
  Z.of_nat (List.length (normalizeHtml html)) <= 6000
  /\ single_spaced false (normalizeHtml html) = true
  /\ normalizeHtml (normalizeHtml html) = normalizeHtml html.
Proof.
  unfold normalizeHtml. rewrite !slice_from_start by lia.
  assert (Hspaced : single_spaced false
                      (firstn (Z.to_nat 6000) (collapseWhitespace false html))
                    = true)
    by apply single_spaced_firstn, collapseWhitespace_single_spaced.
  split; [|split].
  - rewrite length_firstn. lia.
  - exact Hspaced.
  - rewrite (single_spaced_false_collapse _ _ Hspaced), firstn_firstn.
    now rewrite Nat.min_id.
Qed.

(** ** scraper.ts on top of worker.ts *)

Section ScraperOnWorker.
Context {W : Type} `{Runtime W}.
Local Existing Instance stateRuntime.

(** X14.  When the circuit of the url's domain is open, [processUrl] returns
    at once a failed result that carries the message of the open circuit:
    the page is not loaded, no feature is extracted, and the retry manager
    is left as it was. *)
Theorem open_circuit_gives_a_failed_result
    (pageOperation : string -> W -> Result JsError string * W)
    (modelRequest :
       string -> W -> Result JsError (option AccessibilityFeatures) * W)
    (undefinedTypeError : JsError) (url : string) (s : State W) :
  fst (registry_isOpen url (dateNow (world s)) (circuitBreakers s)) = true ->
  processUrl (scrapeUrl pageOperation)
    (extractFeatures modelRequest undefinedTypeError) url s
  = (failed url
       (Some ("Circuit breaker is open for domain " ++ extractDomain url))
       (dateNow (world s)),
     s).
Proof.
  intros Hopen. unfold processUrl, scrapeUrl.
  now rewrite (executeWithRetry_open retryManagerConfig (pageOperation url)
                 url "scraping" s Hopen).
Qed.
End ScraperOnWorker.

(** Witness of X14. *)
Lemma open_circuit_failed_result_witness :
  processUrl (H:=stateRuntime)
    (scrapeUrl (fun _ : string => always_throws connection_refused))
    (extractFeatures bad_request undefined_type_error)
    "https://a.example/rooms" (example_state 1000 example_breakers)
  = (failed "https://a.example/rooms"
       (Some "Circuit breaker is open for domain a.example") 1000,
     example_state 1000 example_breakers).
Proof.
  assert (Hopen : fst (registry_isOpen "https://a.example/rooms"
                         (dateNow (world (example_state 1000 example_breakers)))
                         (circuitBreakers (example_state 1000 example_breakers)))
                  = true)
    by reflexivity.
  exact (open_circuit_gives_a_failed_result
           (fun _ : string => always_throws connection_refused) bad_request
           undefined_type_error "https://a.example/rooms"
           (example_state 1000 example_breakers) Hopen).
Defined.

(** ** The results and the log of a run *)









Section RunFacts.
Context {W : Type} `{Runtime W}.
Variable maxConcurrent : Z.
Variable schedule : Z -> nat -> nat.
Variable scrapeUrl : string -> W -> Result Thrown string * W.
Variable extractFeatures :
  string -> W -> Result Thrown (option AccessibilityFeatures) * W.
Variable getRetryStats : W -> Stats * W.
Variable urlExists : string -> W -> bool.
Variable insertHotel : HotelRecord.t -> W -> Result JsError Z * W.

Local Abbreviation run :=
  (scrapeUrls maxConcurrent schedule scrapeUrl extractFeatures getRetryStats
     urlExists insertHotel).

Lemma processUrl_success_xor_failure (url : string) (w : W) :
  success_xor_failure (fst (processUrl scrapeUrl extractFeatures url w)).
Proof.
  unfold processUrl, success_xor_failure.
  destruct (scrapeUrl url w) as [[html|err] w1]; simpl.
  - destruct (extractFeatures html w1) as [[[features|]|err] w2]; simpl;
      split; try discriminate; try reflexivity.
    intros _. split; [reflexivity | now exists features].
  - split; [discriminate | reflexivity].
Qed.

Lemma stepTask_success_xor_failure (t : Task) (w : W) :
  is_settled t = false ->
  settled_with success_xor_failure
    (fst (stepTask scrapeUrl extractFeatures t w)).
Proof.
  unfold success_xor_failure.
  destruct t as [url timestamp|url timestamp html|r]; [| |discriminate];
    intros _; cbn [stepTask].
  - destruct (scrapeUrl url w) as [[html|err] w1]; simpl; [exact I|].
    split; [discriminate | reflexivity].
  - destruct (extractFeatures html w) as [[[features|]|err] w2]; simpl;
      split; try discriminate; try reflexivity.
    intros _. split; [reflexivity | now exists features].
Qed.

Lemma promiseAll_results (i : Z) (batch : list string) :
  forall w log,
    Forall success_xor_failure
      (fst (fst (promiseAll schedule scrapeUrl extractFeatures i batch w
                   log))).
Proof.
  intros w log.
  destruct (promiseAll_spec schedule scrapeUrl extractFeatures
              success_xor_failure stepTask_success_xor_failure i batch w log)
    as (rs & w' & settles & Hall & _ & Hrs & _).
  now rewrite Hall.
Qed.

Lemma batchLoop_results (newUrls : list string) :
  forall fuel i results w log results' w' log',
    batchLoop maxConcurrent schedule scrapeUrl extractFeatures insertHotel
      fuel newUrls i results w log = Some (results', w', log') ->
    Forall success_xor_failure results ->
    Forall success_xor_failure results'.
Proof.
  induction fuel as [|fuel IH]; intros i results w log results' w' log';
    [discriminate|].
  cbn [batchLoop].
  destruct (i <? Z.of_nat (List.length newUrls)).
  2:{ intros Heq. now injection Heq as <- _ _. }
  pose proof (promiseAll_results i (slice i (i + maxConcurrent) newUrls) w log)
    as Hbatch.
  destruct (promiseAll schedule scrapeUrl extractFeatures i _ w log)
    as [[batchResults w1] log1].
  destruct (saveResults insertHotel batchResults w1 log1) as [w2 log2].
  simpl in Hbatch.
  destruct (i + maxConcurrent <? Z.of_nat (List.length newUrls));
    intros Hloop Hresults; apply IH in Hloop; auto;
    apply Forall_app; auto.
Qed.

(** X15.  Every result that a run returns is either a success that carries
    features and no error, or a failure that carries no features. *)
Theorem results_are_successes_or_failures
    (fuel : nat) (urls : list string) (w : W)
    (results : list ScrapeResult.t) (w' : W) (log : list Event) :
  run fuel urls w = Some (results, w', log) ->
  Forall success_xor_failure results.
Proof.
  unfold scrapeUrls.
  destruct (Nat.eqb _ 0).
  - intros Heq. injection Heq as <- _ _. constructor.
  - destruct (batchLoop _ _ _ _ _ _ _ _ _ _) as [[[rs w1] lg]|] eqn:Hloop;
      [|discriminate].
    destruct (getRetryStats w1) as [retryStats w2].
    intros Heq. injection Heq as <- _ _.
    apply (batchLoop_results _ _ _ _ _ _ _ _ _ Hloop). constructor.
Qed.



(** X18.  When every url is already stored (in particular for no url at
    all), a run returns no result at once, whatever [maxConcurrent] is:
    nothing is processed, saved or paused for, the retry statistics are not
    asked, and the world is as before. *)
Theorem nothing_pending_returns_at_once
    (fuel : nat) (urls : list string) (w : W) :
  forallb (fun url => urlExists url w) urls = true ->
  scrapeUrls maxConcurrent schedule scrapeUrl extractFeatures getRetryStats
    urlExists insertHotel fuel urls w
  = Some ([], w, []).
Proof.
  intros Hdone. unfold scrapeUrls.
  assert (Hnone : filter (fun url => negb (urlExists url w)) urls = []).
  { induction urls as [|url urls IH]; [reflexivity|].
    simpl in Hdone |- *. apply andb_prop in Hdone.
    destruct Hdone as [-> Hrest]. simpl. now apply IH. }
  now rewrite Hnone.
Qed.
End RunFacts.

(** Witness of X15. *)
Lemma results_are_successes_or_failures_witness :
  Forall success_xor_failure
    (map (fun url =>
            {| ScrapeResult.url := url;
               ScrapeResult.success := true;
               ScrapeResult.data := Some example_features;
               ScrapeResult.error := None;
               ScrapeResult.timestamp := 0 |})
         ["https://a.example/"]).
Proof.
  apply (results_are_successes_or_failures 3 taking_turns example_scrapeUrl
           example_extractFeatures example_getRetryStats example_urlExists
           example_insertHotel 2 ["https://a.example/"] (example_world 0)
           _ (example_world 20)
           [Settled "https://a.example/" true; Saved "https://a.example/"]).
  reflexivity.
Defined.



(** Witness of X18: the only url is already stored, and the window size
    is 0. *)
Lemma nothing_pending_witness :
  scrapeUrls 0 taking_turns example_scrapeUrl example_extractFeatures
    example_getRetryStats example_urlExists example_insertHotel 0
    ["https://done.example/"] (example_world 0)
  = Some ([], example_world 0, []).
Proof.
  apply (nothing_pending_returns_at_once 0 taking_turns example_scrapeUrl
           example_extractFeatures example_getRetryStats example_urlExists
           example_insertHotel 0 ["https://done.example/"] (example_world 0)).
  reflexivity.
Defined.

(** ** The message of a failed result *)

Lemma string_append_assoc (a b c : string) : (a ++ b) ++ c = a ++ (b ++ c).
Proof. induction a as [|x a IH]; simpl; [reflexivity | now rewrite IH]. Qed.

(** X19.  For a classified error with a kind and an attempt other than 0,
    the error text of the failed result is the kind, the message and the
    number of attempts: ["<kind>: <message> (failed after <n> attempts)"]. *)
Theorem failed_result_reports_kind_message_and_attempts
    (error : JsError) (url : string) (attempt : Z) (context : string)
    (now : Z) (kind : ErrorType) :
  DetailedError.type (categorizeError error url attempt context now)
  = Some kind ->
  attempt <> 0 ->
  processUrl_errorMessage
    (ThrowDetailed (categorizeError error url attempt context now))
  = Some (ErrorType_value kind ++ ": " ++ message_or_default error
          ++ " (failed after " ++ string_of_Z attempt ++ " attempts)").
Proof.
  intros Hkind Hattempt. unfold processUrl_errorMessage.
  rewrite Hkind, categorizeError_attempt.
  assert (Hmessage : DetailedError.message
                       (categorizeError error url attempt context now)
                     = message_or_default error).
  { unfold categorizeError.
    match goal with
    | |- context [let '(_, _) := ?x in _] => destruct x
    end.
    reflexivity. }
  rewrite Hmessage.
  destruct (String.eqb_spec (message_or_default error) "") as [Hempty|_].
  - now apply message_or_default_not_empty in Hempty.
  - destruct (Z.eqb_spec attempt 0); [contradiction|]. simpl.
    now rewrite !string_append_assoc.
Qed.

(** Witness of X19. *)
Lemma failed_result_message_witness :
  processUrl_errorMessage
    (ThrowDetailed
       (categorizeError connection_refused "https://a.example/" 3
          "scraping" 0))
  = Some "network_error: connect ECONNREFUSED 10.0.0.1:443 (failed after 3 attempts)".
Proof.
  exact (failed_result_reports_kind_message_and_attempts connection_refused
           "https://a.example/" 3 "scraping" 0 NETWORK_ERROR eq_refl
           ltac:(discriminate)).
Defined.

(** ** Failures that open the circuit of their own key *)

Section Tripping.
Context {W : Type} `{Runtime W}.

(** X20.  A call whose operation fails at every attempt with a retryable
    error adds [maxAttempts] failures to the breaker of its key; when that
    brings the count to the threshold, the next call for the same key
    within [resetTimeout] is refused without invoking its operation. *)
Theorem exhausted_calls_trip_the_breaker
    {T T' : Type} (config : RetryConfig)
    (operation : W -> Result JsError T * W) (url context : string)
    (s : State W) :
  1 <= maxAttempts config ->
  fst (registry_isOpen url (dateNow (world s)) (circuitBreakers s)) = false ->
  fails_retryable operation url context ->
  exists d s' cb cb',
    executeWithRetry config operation url context s
    = (Throw (ThrowDetailed d), s')
    /\ Map_get (extractDomain url)
         (snd (registry_isOpen url (dateNow (world s)) (circuitBreakers s)))
       = Some cb
    /\ Map_get (extractDomain url) (circuitBreakers s') = Some cb'
    /\ failures cb' = failures cb + maxAttempts config
    /\ lastFailureTime cb' = dateNow (world s')
    /\ (failureThreshold <= failures cb' ->
        forall (config' : RetryConfig)
               (operation' : W -> Result JsError T' * W)
               (context' : string) (s'' : State W),
          circuitBreakers s'' = circuitBreakers s' ->
          dateNow (world s'') - dateNow (world s') <= resetTimeout ->
          executeWithRetry config' operation' url context' s''
          = (Throw (ThrowError
                      (RetryableError NETWORK_ERROR
                         ("Circuit breaker is open for domain "
                          ++ extractDomain url) None false)), s'')).
Proof.
  intros Hmax Hclosed Hfail.
  destruct (executeWithRetry_all_fail config operation url context s
              Hmax Hclosed Hfail)
    as (d & s' & cb & cb' & Hexec & _ & Hget & Hget' & Hf & Ht).
  exists d, s', cb, cb'.
  split; [exact Hexec|]. split; [exact Hget|]. split; [exact Hget'|].
  split; [exact Hf|]. split; [exact Ht|].
  intros Hthreshold config' operation' context' s'' Hsame Hsoon.
  apply executeWithRetry_open.
  rewrite registry_isOpen_fst, Hsame. unfold getCircuitBreaker.
  rewrite Hget'. simpl. apply isOpen_true_iff. split; [exact Hthreshold|lia].
Qed.
End Tripping.

(** Witness of X20: two failures are on record for the domain; the call
    fails three times; the next call for the url is refused. *)
Lemma exhausted_calls_trip_the_breaker_witness :
  exists d s',
    executeWithRetry defaultConfig
      (always_throws (T:=string) connection_refused)
      "https://a.example/rooms" "scraping"
      (example_state 0
         [("a.example",
           {| failures := 2; successes := 0; lastFailureTime := 0 |})])
    = (Throw (ThrowDetailed d), s')
    /\ executeWithRetry defaultConfig
         (fails_before 0 connection_refused "<html>")
         "https://a.example/rooms" "scraping" s'
       = (Throw (ThrowError
                   (RetryableError NETWORK_ERROR
                      "Circuit breaker is open for domain a.example"
                      None false)), s').
Proof.
  destruct (exhausted_calls_trip_the_breaker (T':=string) defaultConfig
              (always_throws (T:=string) connection_refused)
              "https://a.example/rooms" "scraping"
              (example_state 0
                 [("a.example",
                   {| failures := 2; successes := 0; lastFailureTime := 0 |})]))
    as (d & s' & cb & cb' & Hexec & Hget & _ & Hf & _ & Hopen).
  - vm_compute. discriminate.
  - reflexivity.
  - intros w. exists connection_refused, (setTimeout (double_of_Z 10) w).
    split; [reflexivity|]. intros attempt now. reflexivity.
  - exists d, s'. split; [exact Hexec|].
    vm_compute in Hget. injection Hget as <-.
    assert (Hcount : failureThreshold <= failures cb')
      by (rewrite Hf; vm_compute; discriminate).
    assert (Hsoon : dateNow (world s') - dateNow (world s') <= resetTimeout)
      by (rewrite Z.sub_diag; vm_compute; discriminate).
    exact (Hopen Hcount defaultConfig
             (fails_before 0 connection_refused "<html>") "scraping" s'
             eq_refl Hsoon).
Defined.
